(** * t5.data: vocabularies and mixing rates

    A shallow embedding of [t5/data/vocabularies.py] (the abstract
    [Vocabulary] class and its byte-level subclass [ByteVocabulary]) and of
    the mixing-rate function [rate_unsupervised] of [t5/data/utils.py],
    together with the properties of the text codec.

    Python integers are unbounded, so ids and byte values are [Z].  A Python
    [str] is a sequence of code points, a [bytes] object a sequence of
    integers in [range(0, 256)].  A Python or TensorFlow call that raises is
    a [Raise] result. *)

From Stdlib Require Import String ZArith List Bool Lia PrimFloat.
Import ListNotations.

Local Open Scope Z_scope.

(** ** Results of calls that may raise *)

Inductive exn : Type :=
| UnicodeEncodeError
| UnicodeDecodeError
| ValueError
| InvalidArgumentError.

Inductive result (A : Type) : Type :=
| Ok (a : A)
| Raise (e : exn).

Arguments Ok {A} a.
Arguments Raise {A} e.

Definition bind {A B : Type} (r : result A) (k : A -> result B) : result B :=
  match r with
  | Ok a => k a
  | Raise e => Raise e
  end.

Notation "x <- r ;; k" := (bind r (fun x => k))
  (at level 61, r at next level, right associativity).

(** ** The Python built-ins the vocabulary calls *)

Module Py.

(** A [str]: its code points, each in [range(0x110000)]. *)
Definition str := list Z.

(** The code points [str.encode("utf-8")] accepts: everything but the
    surrogates U+D800..U+DFFF. *)
Definition is_scalar_value (c : Z) : bool :=
  (0 <=? c) && (c <? 0x110000) && negb ((0xD800 <=? c) && (c <=? 0xDFFF)).

(** UTF-8 form of one code point, as CPython's encoder writes it; a
    surrogate raises [UnicodeEncodeError].  A value outside
    [range(0x110000)] is no character of a [str]; the encoder has no case
    for it, which is a [ValueError] here. *)
Definition utf8_encode_char (ch : Z) : result (list Z) :=
  if ch <? 0 then Raise ValueError
  else if ch <? 0x80 then Ok [ch]
  else if ch <? 0x800 then
    Ok [Z.lor 0xC0 (Z.shiftr ch 6); Z.lor 0x80 (Z.land ch 0x3F)]
  else if ch <? 0x10000 then
    if (0xD800 <=? ch) && (ch <=? 0xDFFF) then Raise UnicodeEncodeError
    else Ok [Z.lor 0xE0 (Z.shiftr ch 12);
             Z.lor 0x80 (Z.land (Z.shiftr ch 6) 0x3F);
             Z.lor 0x80 (Z.land ch 0x3F)]
  else if ch <? 0x110000 then
    Ok [Z.lor 0xF0 (Z.shiftr ch 18);
        Z.lor 0x80 (Z.land (Z.shiftr ch 12) 0x3F);
        Z.lor 0x80 (Z.land (Z.shiftr ch 6) 0x3F);
        Z.lor 0x80 (Z.land ch 0x3F)]
  else Raise ValueError.

(** [s.encode("utf-8")] *)
Fixpoint encode_utf8 (s : str) : result (list Z) :=
  match s with
  | [] => Ok []
  | ch :: s' =>
      bs <- utf8_encode_char ch ;;
      rest <- encode_utf8 s' ;;
      Ok (bs ++ rest)
  end.

(** The [errors] argument of [bytes.decode]. *)
Inductive errors : Type := strict | ignore.

(** What the decoder does at a malformed sequence: [strict] raises,
    [ignore] drops the offending bytes and resumes behind them. *)
Definition on_error (e : errors) (resume : result str) : result str :=
  match e with
  | strict => Raise UnicodeDecodeError
  | ignore => resume
  end.

Definition emit (ch : Z) (rest : result str) : result str :=
  s <- rest ;; Ok (ch :: s).

Definition is_continuation_byte (ch : Z) : bool :=
  (0x80 <=? ch) && (ch <? 0xC0).

(** [bytes.decode("utf-8", errors=e)], following CPython's decoder: an
    invalid start byte is an error of one byte, an invalid continuation
    byte ends the error just before it, and a sequence cut off by the end
    of the input is an error up to the end. *)
Fixpoint decode_utf8 (e : errors) (s : list Z) {struct s} : result str :=
  match s with
  | [] => Ok []
  | ch :: s1 =>
    if ch <? 0x80 then emit ch (decode_utf8 e s1)
    else if ch <? 0xE0 then
      if ch <? 0xC2 then on_error e (decode_utf8 e s1)
      else
        match s1 with
        | [] => on_error e (Ok [])
        | ch2 :: s2 =>
          if negb (is_continuation_byte ch2) then on_error e (decode_utf8 e s1)
          else emit (Z.shiftl ch 6 + ch2 - (Z.shiftl 0xC0 6 + 0x80))
                    (decode_utf8 e s2)
        end
    else if ch <? 0xF0 then
      match s1 with
      | [] => on_error e (Ok [])
      | ch2 :: s2 =>
        if negb (is_continuation_byte ch2)
           || (if ch2 <? 0xA0 then ch =? 0xE0 else ch =? 0xED)
        then on_error e (decode_utf8 e s1)
        else
          match s2 with
          | [] => on_error e (Ok [])
          | ch3 :: s3 =>
            if negb (is_continuation_byte ch3)
            then on_error e (decode_utf8 e s2)
            else emit (Z.shiftl ch 12 + Z.shiftl ch2 6 + ch3
                       - (Z.shiftl 0xE0 12 + Z.shiftl 0x80 6 + 0x80))
                      (decode_utf8 e s3)
          end
      end
    else if ch <? 0xF5 then
      match s1 with
      | [] => on_error e (Ok [])
      | ch2 :: s2 =>
        if negb (is_continuation_byte ch2)
           || (if ch2 <? 0x90 then ch =? 0xF0 else ch =? 0xF4)
        then on_error e (decode_utf8 e s1)
        else
          match s2 with
          | [] => on_error e (Ok [])
          | ch3 :: s3 =>
            if negb (is_continuation_byte ch3)
            then on_error e (decode_utf8 e s2)
            else
              match s3 with
              | [] => on_error e (Ok [])
              | ch4 :: s4 =>
                if negb (is_continuation_byte ch4)
                then on_error e (decode_utf8 e s3)
                else emit (Z.shiftl ch 18 + Z.shiftl ch2 12
                           + Z.shiftl ch3 6 + ch4
                           - (Z.shiftl 0xF0 18 + Z.shiftl 0x80 12
                              + Z.shiftl 0x80 6 + 0x80))
                          (decode_utf8 e s4)
              end
          end
      end
    else on_error e (decode_utf8 e s1)
  end.

(** [bytes(ids)]: every element must be in [range(0, 256)]. *)
Definition bytes (ids : list Z) : result (list Z) :=
  if forallb (fun i => (0 <=? i) && (i <? 256)) ids then Ok ids
  else Raise ValueError.

(** [x in l] *)
Definition contains (x : Z) (l : list Z) : bool := existsb (Z.eqb x) l.

(** [l.index(x)]: the first position of [x]; raises when there is none. *)
Fixpoint index (x : Z) (l : list Z) : result nat :=
  match l with
  | [] => Raise ValueError
  | y :: l' => if y =? x then Ok O else k <- index x l' ;; Ok (S k)
  end.

End Py.

(** ** The TensorFlow operations the vocabulary calls

    A 1-D [int32] tensor is the list of its elements, a [bool] tensor a list
    of booleans, and a [tf.string] scalar the bytes it holds.  The integer
    operations used by [decode_tf] compare and select but never compute, so
    no wrap-around arises there; the one addition, in [_encode_tf], is on
    [uint8] and wraps modulo 256. *)

Module tf.

(** [tf.constant(ids)] on a tensor of ids. *)
Definition constant (ids : list Z) : list Z := ids.

(** [tf.constant(s)] on a Python [str]: the scalar holds its UTF-8 form; a
    [str] that has none, for a lone surrogate, is rejected with a
    [ValueError]. *)
Definition constant_str (s : Py.str) : result (list Z) :=
  match Py.encode_utf8 s with
  | Ok bs => Ok bs
  | Raise _ => Raise ValueError
  end.

(** [tf.less(x, y)], [tf.equal(x, y)] with a scalar [y] broadcast. *)
Definition less (x : list Z) (y : Z) : list bool := map (fun i => i <? y) x.
Definition equal (x : list Z) (y : Z) : list bool := map (fun i => i =? y) x.

(** [tf.where(c, x, y)] with a scalar [y] broadcast. *)
Definition where_ (c : list bool) (x : list Z) (y : Z) : list Z :=
  map (fun p : bool * Z => if fst p then snd p else y) (combine c x).

(** Position of the first [true], if any. *)
Fixpoint first_true (x : list bool) : option nat :=
  match x with
  | [] => None
  | b :: x' => if b then Some O else option_map S (first_true x')
  end.

(** [tf.argmax(x)] on a 1-D [bool] tensor: the first position of the
    largest element ("Argmax always returns the first occurrence", as
    [decode_tf] notes), hence of the first [True], and 0 when all are
    [False].  The kernel rejects an empty reduction axis with an
    [InvalidArgumentError] ("Reduction axis 0 is empty in shape [0]"). *)
Definition argmax (x : list bool) : result nat :=
  match x with
  | [] => Raise InvalidArgumentError
  | _ => Ok (match first_true x with Some k => k | None => O end)
  end.

(** [x[0]]: on an empty tensor the index is out of bounds, an
    [InvalidArgumentError] as well. *)
Definition getitem0 (x : list Z) : result Z :=
  match x with
  | [] => Raise InvalidArgumentError
  | a :: _ => Ok a
  end.

(** [x[:n]] *)
Definition slice_to (x : list Z) (n : nat) : list Z := firstn n x.

(** Scalar [tf.equal], [tf.not_equal], [tf.logical_and]. *)
Definition equal_nat (a b : nat) : bool := Nat.eqb a b.
Definition not_equal (a b : Z) : bool := negb (a =? b).
Definition logical_and (a b : bool) : bool := a && b.

(** [tf.cond(pred, true_fn, false_fn)] *)
Definition cond {A : Type} (pred : bool) (true_fn false_fn : unit -> A) : A :=
  if pred then true_fn tt else false_fn tt.

(** [tf.io.decode_raw(s, tf.uint8)]: the bytes of the scalar. *)
Definition decode_raw_uint8 (s : list Z) : list Z := s.

(** [x + n] on a [uint8] tensor: the scalar is converted to [uint8] and
    the sum wraps. *)
Definition add_uint8 (x : list Z) (n : Z) : list Z :=
  map (fun b => (b + n) mod 256) x.

(** [tf.dtypes.cast(x, tf.int32)] from [uint8]: values are kept. *)
Definition cast_int32 (x : list Z) : list Z := x.

(** [tf.py_function(func, inp=[ids], Tout=tf.string)]: runs [func] on the
    ids; the [str] it returns becomes a string scalar, in UTF-8.  An
    exception inside the op, a [ValueError] of [func] for one, surfaces as
    an [InvalidArgumentError]. *)
Definition py_function_string (func : list Z -> result Py.str) (ids : list Z)
  : result (list Z) :=
  match (s <- func ids ;; Py.encode_utf8 s) with
  | Ok out => Ok out
  | Raise _ => Raise InvalidArgumentError
  end.

(** Reading a string scalar back: [t.numpy().decode("utf-8")]. *)
Definition numpy_decode (t : list Z) : result Py.str :=
  Py.decode_utf8 Py.strict t.

End tf.

(** ** vocabularies.py *)

Definition PAD_ID : Z := 0.
Definition EOS_ID : Z := 1.
Definition UNK_ID : Z := 2.

(** *** class Vocabulary

    The attributes set by [Vocabulary.__init__] and the abstract members a
    subclass supplies. *)

Class Vocabulary (V : Type) : Type := {
  _extra_ids : V -> Z;
  _use_eos : V -> bool;
  _use_unk : V -> bool;
  _base_vocab_size : V -> Z;
  _encode : V -> Py.str -> result (list Z);
  _decode : V -> list Z -> result Py.str;
  _encode_tf : V -> list Z -> result (list Z);
  _decode_tf : V -> list Z -> result (list Z)
}.

(** The body of [Vocabulary.decode], over the members it reads.  A subclass
    whose [_decode_tf] calls [self.decode] refers to it in this form. *)
Definition decode_body (unk_id eos_id : option Z) (base_vocab_size : Z)
    (primitive_decode : list Z -> result Py.str) (ids : list Z)
  : result Py.str :=
  let clean_ids := ids in
  let clean_ids :=
    match unk_id with
    | Some unk => map (fun i => if i >=? base_vocab_size then unk else i) clean_ids
    | None => clean_ids
    end in
  clean_ids <-
    match eos_id with
    | Some eos =>
        if Py.contains eos clean_ids
        then k <- Py.index eos clean_ids ;; Ok (firstn k clean_ids)
        else Ok clean_ids
    | None => Ok clean_ids
    end ;;
  primitive_decode clean_ids.

Section VocabularyMethods.

Context {V : Type} `{Vocabulary V}.

Definition eos_id (self : V) : option Z :=
  if _use_eos self then Some EOS_ID else None.

Definition pad_id (self : V) : Z := PAD_ID.

Definition unk_id (self : V) : option Z :=
  if _use_unk self then Some UNK_ID else None.

Definition extra_ids (self : V) : Z := _extra_ids self.

Definition vocab_size (self : V) : Z := _base_vocab_size self + extra_ids self.

Definition encode (self : V) (s : Py.str) : result (list Z) := _encode self s.

Definition decode (self : V) (ids : list Z) : result Py.str :=
  decode_body (unk_id self) (eos_id self) (_base_vocab_size self)
              (_decode self) ids.

Definition encode_tf (self : V) (s : list Z) : result (list Z) :=
  _encode_tf self s.

Definition decode_tf (self : V) (ids : list Z) : result (list Z) :=
  let valid_ids := tf.constant ids in
  let valid_ids :=
    match unk_id self with
    | Some unk =>
        tf.where_ (tf.less valid_ids (_base_vocab_size self)) valid_ids unk
    | None => valid_ids
    end in
  valid_ids <-
    match eos_id self with
    | Some eos =>
        first_eos <- tf.argmax (tf.equal valid_ids eos) ;;
        head <- tf.getitem0 valid_ids ;;
        Ok (tf.cond
              (tf.logical_and (tf.equal_nat first_eos 0)
                              (tf.not_equal head eos))
              (fun _ => valid_ids)
              (fun _ => tf.slice_to valid_ids first_eos))
    | None => Ok valid_ids
    end ;;
  _decode_tf self valid_ids.

End VocabularyMethods.

(** *** class ByteVocabulary(Vocabulary) *)

Module ByteVocabulary.

(** The attributes of an instance: two of its own and the three of the
    base class. *)
Record t : Type := {
  _byte_size : Z;
  _num_special_tokens : Z;
  extra_ids_ : Z;
  use_eos_ : bool;
  use_unk_ : bool
}.

Definition __init__ (extra_ids : Z) : t :=
  {| _byte_size := 256;
     _num_special_tokens := 3;
     use_eos_ := true;
     use_unk_ := true;
     extra_ids_ := extra_ids |}.

Definition _convert_strings_to_ids (self : t) (s : Py.str) : result (list Z) :=
  Py.encode_utf8 s.

Definition _convert_ids_to_strings (self : t) (ids : list Z) : result Py.str :=
  b <- Py.bytes ids ;; Py.decode_utf8 Py.ignore b.

Definition _filter_non_string_ids (self : t) (ids : list Z) : list Z :=
  let lower_bound := _num_special_tokens self in
  let upper_bound := _byte_size self + _num_special_tokens self in
  filter (fun id => (lower_bound <=? id) && (id <? upper_bound)) ids.

Definition _base_vocab_size (self : t) : Z :=
  _num_special_tokens self + _byte_size self.

Definition _encode (self : t) (s : Py.str) : result (list Z) :=
  ids <- _convert_strings_to_ids self s ;;
  Ok (map (fun i => i + _num_special_tokens self) ids).

Definition _decode (self : t) (ids : list Z) : result Py.str :=
  let ids := _filter_non_string_ids self ids in
  let ids := map (fun i => i - _num_special_tokens self) ids in
  _convert_ids_to_strings self ids.

Definition _encode_tf (self : t) (s : list Z) : result (list Z) :=
  let tf_ids := tf.add_uint8 (tf.decode_raw_uint8 s) (_num_special_tokens self) in
  Ok (tf.cast_int32 tf_ids).

(** [self.decode]: the inherited method on this instance. *)
Definition decode (self : t) (ids : list Z) : result Py.str :=
  decode_body (if use_unk_ self then Some UNK_ID else None)
              (if use_eos_ self then Some EOS_ID else None)
              (_base_vocab_size self) (_decode self) ids.

Definition _decode_tf (self : t) (ids : list Z) : result (list Z) :=
  tf.py_function_string (decode self) ids.

Definition __eq__ (self other : t) : bool :=
  let their_extra_ids := extra_ids_ other in
  extra_ids_ self =? their_extra_ids.

End ByteVocabulary.

#[export] Instance ByteVocabulary_Vocabulary : Vocabulary ByteVocabulary.t := {|
  _extra_ids := ByteVocabulary.extra_ids_;
  _use_eos := ByteVocabulary.use_eos_;
  _use_unk := ByteVocabulary.use_unk_;
  _base_vocab_size := ByteVocabulary._base_vocab_size;
  _encode := ByteVocabulary._encode;
  _decode := ByteVocabulary._decode;
  _encode_tf := ByteVocabulary._encode_tf;
  _decode_tf := ByteVocabulary._decode_tf
|}.

(** ** utils.py *)

(** [rate_unsupervised(task, value=1e6)]: an omitted [value] is [None]. *)
Definition rate_unsupervised {Task : Type} (task : Task) (value : option float)
  : float :=
  match value with
  | Some v => v
  | None => 1e6%float
  end.

Definition DEFAULT_SPM_PATH : string :=
  "gs://t5-data/vocabs/cc_all.32000/sentencepiece.model"%string.

Definition DEFAULT_EXTRA_IDS : Z := 100.

(** Truth value of an optional [str]: [None] and the empty string are
    false. *)
Definition truthy (path : option string) : bool :=
  match path with
  | Some (String _ _) => true
  | Some EmptyString => false
  | None => false
  end.

(** [get_default_spm_path(path=None)]: [path if path else DEFAULT_SPM_PATH].
    The argument is the caller's or the one the configuration binds. *)
Definition get_default_spm_path (path : option string) : string :=
  match path with
  | Some p => if truthy path then p else DEFAULT_SPM_PATH
  | None => DEFAULT_SPM_PATH
  end.

(** ** The codec in the words of its specification *)

Module Spec.

(** The ids strictly before the first occurrence of the terminator. *)
Fixpoint before_first (eos : Z) (ids : list Z) : list Z :=
  match ids with
  | [] => []
  | i :: ids' => if i =? eos then [] else i :: before_first eos ids'
  end.

(** Every id at or above the base vocabulary size becomes the unknown id. *)
Definition substitute_unk (base unk : Z) (ids : list Z) : list Z :=
  map (fun i => if base <=? i then unk else i) ids.

(** The two cleaning steps, each present only when its id is defined. *)
Definition clean (unk_id eos_id : option Z) (base : Z) (ids : list Z)
  : list Z :=
  let ids := match unk_id with
             | Some unk => substitute_unk base unk ids
             | None => ids
             end in
  match eos_id with
  | Some eos => before_first eos ids
  | None => ids
  end.

(** The ids that stand for a byte: 3 to 258. *)
Definition is_content_id (i : Z) : bool := (3 <=? i) && (i <=? 258).

(** UTF-8 bytes of the string, each moved up by 3. *)
Definition byte_ids (s : Py.str) : result (list Z) :=
  bs <- Py.encode_utf8 s ;; Ok (map (fun b => b + 3) bs).

(** What the byte vocabulary decodes a sequence to: the content ids before
    the first terminator, moved down by 3 and read as UTF-8, malformed
    parts dropped. *)
Definition byte_text (ids : list Z) : result Py.str :=
  Py.decode_utf8 Py.ignore
    (map (fun i => i - 3) (filter is_content_id (before_first EOS_ID ids))).

Section Pipelines.

Context {V : Type} `{Vocabulary V}.

(** [decode(encode(s))] *)
Definition scalar_pipeline (self : V) (s : Py.str) : result Py.str :=
  ids <- encode self s ;; decode self ids.

(** [decode_tf(encode_tf(tf.constant(s)))], read back as a [str]. *)
Definition batched_pipeline (self : V) (s : Py.str) : result Py.str :=
  t <- tf.constant_str s ;;
  ids <- encode_tf self t ;;
  out <- decode_tf self ids ;;
  tf.numpy_decode out.

End Pipelines.

End Spec.

(** * Properties *)

(** ** Results *)

Lemma bind_Ok_inv {A B : Type} (r : result A) (k : A -> result B) (b : B) :
  bind r k = Ok b -> exists a, r = Ok a /\ k a = Ok b.
Proof.
  destruct r as [a | e]; simpl; intros Hb; [exists a; auto | discriminate].
Qed.

Lemma Ok_inj {A : Type} (a b : A) : Ok a = Ok b -> a = b.
Proof. intros Heq. inversion Heq. reflexivity. Qed.

(** ** Bit operations of the UTF-8 encoder, as arithmetic *)

Lemma below_enumerated (f : Z -> bool) (n : nat) :
  forallb f (map Z.of_nat (seq 0 n)) = true ->
  forall m, 0 <= m < Z.of_nat n -> f m = true.
Proof.
  intros Hall m Hm.
  rewrite forallb_forall in Hall. apply Hall.
  apply in_map_iff. exists (Z.to_nat m). split; [lia |].
  apply in_seq. lia.
Qed.

Lemma lor_tag (tag width : Z) :
  forallb (fun m => Z.lor tag m =? tag + m)
          (map Z.of_nat (seq 0 (Z.to_nat width))) = true ->
  forall m, 0 <= m < width -> Z.lor tag m = tag + m.
Proof.
  intros Hall m Hm. apply Z.eqb_eq.
  apply (below_enumerated (fun m => Z.lor tag m =? tag + m) _ Hall). lia.
Qed.

Lemma lor_0x80 m : 0 <= m < 64 -> Z.lor 0x80 m = 128 + m.
Proof. apply lor_tag. vm_compute. reflexivity. Qed.

Lemma lor_0xC0 m : 0 <= m < 32 -> Z.lor 0xC0 m = 192 + m.
Proof. apply lor_tag. vm_compute. reflexivity. Qed.

Lemma lor_0xE0 m : 0 <= m < 16 -> Z.lor 0xE0 m = 224 + m.
Proof. apply lor_tag. vm_compute. reflexivity. Qed.

Lemma lor_0xF0 m : 0 <= m < 8 -> Z.lor 0xF0 m = 240 + m.
Proof. apply lor_tag. vm_compute. reflexivity. Qed.

Lemma land_0x3F a : Z.land a 0x3F = a mod 64.
Proof. change 0x3F with (Z.ones 6). rewrite Z.land_ones by lia. reflexivity. Qed.

Lemma shiftr_6 a : Z.shiftr a 6 = a / 64.
Proof. rewrite Z.shiftr_div_pow2 by lia. reflexivity. Qed.

Lemma shiftr_12 a : Z.shiftr a 12 = a / 4096.
Proof. rewrite Z.shiftr_div_pow2 by lia. reflexivity. Qed.

Lemma shiftr_18 a : Z.shiftr a 18 = a / 262144.
Proof. rewrite Z.shiftr_div_pow2 by lia. reflexivity. Qed.

Lemma shiftl_6 a : Z.shiftl a 6 = a * 64.
Proof. rewrite Z.shiftl_mul_pow2 by lia. reflexivity. Qed.

Lemma shiftl_12 a : Z.shiftl a 12 = a * 4096.
Proof. rewrite Z.shiftl_mul_pow2 by lia. reflexivity. Qed.

Lemma shiftl_18 a : Z.shiftl a 18 = a * 262144.
Proof. rewrite Z.shiftl_mul_pow2 by lia. reflexivity. Qed.

Ltac euclid := Z.to_euclidean_division_equations; lia.

(** ** The UTF-8 encoder, case by case *)

Lemma utf8_encode_char_1 ch :
  0 <= ch < 0x80 -> Py.utf8_encode_char ch = Ok [ch].
Proof.
  intros Hc. unfold Py.utf8_encode_char.
  destruct (Z.ltb_spec ch 0); [lia |].
  destruct (Z.ltb_spec ch 0x80); [reflexivity | lia].
Qed.

Lemma utf8_encode_char_2 ch :
  0x80 <= ch < 0x800 ->
  Py.utf8_encode_char ch = Ok [192 + ch / 64; 128 + ch mod 64].
Proof.
  intros Hc. unfold Py.utf8_encode_char.
  destruct (Z.ltb_spec ch 0); [lia |].
  destruct (Z.ltb_spec ch 0x80); [lia |].
  destruct (Z.ltb_spec ch 0x800); [| lia].
  rewrite shiftr_6, land_0x3F.
  rewrite lor_0xC0 by euclid. rewrite lor_0x80 by euclid. reflexivity.
Qed.

Lemma utf8_encode_char_3 ch :
  0x800 <= ch < 0x10000 -> ~ (0xD800 <= ch <= 0xDFFF) ->
  Py.utf8_encode_char ch
  = Ok [224 + ch / 4096; 128 + (ch / 64) mod 64; 128 + ch mod 64].
Proof.
  intros Hc Hs. unfold Py.utf8_encode_char.
  destruct (Z.ltb_spec ch 0); [lia |].
  destruct (Z.ltb_spec ch 0x80); [lia |].
  destruct (Z.ltb_spec ch 0x800); [lia |].
  destruct (Z.ltb_spec ch 0x10000); [| lia].
  destruct (Z.leb_spec 0xD800 ch); destruct (Z.leb_spec ch 0xDFFF);
    cbn [andb]; try lia;
    rewrite shiftr_12, shiftr_6, !land_0x3F;
    rewrite lor_0xE0 by euclid; rewrite !lor_0x80 by euclid; reflexivity.
Qed.

Lemma utf8_encode_char_4 ch :
  0x10000 <= ch < 0x110000 ->
  Py.utf8_encode_char ch
  = Ok [240 + ch / 262144; 128 + (ch / 4096) mod 64;
        128 + (ch / 64) mod 64; 128 + ch mod 64].
Proof.
  intros Hc. unfold Py.utf8_encode_char.
  destruct (Z.ltb_spec ch 0); [lia |].
  destruct (Z.ltb_spec ch 0x80); [lia |].
  destruct (Z.ltb_spec ch 0x800); [lia |].
  destruct (Z.ltb_spec ch 0x10000); [lia |].
  destruct (Z.ltb_spec ch 0x110000); [| lia].
  rewrite shiftr_18, shiftr_12, shiftr_6, !land_0x3F.
  rewrite lor_0xF0 by euclid. rewrite !lor_0x80 by euclid. reflexivity.
Qed.

Lemma utf8_encode_char_surrogate ch :
  0xD800 <= ch <= 0xDFFF -> Py.utf8_encode_char ch = Raise UnicodeEncodeError.
Proof.
  intros Hc. unfold Py.utf8_encode_char.
  destruct (Z.ltb_spec ch 0); [lia |].
  destruct (Z.ltb_spec ch 0x80); [lia |].
  destruct (Z.ltb_spec ch 0x800); [lia |].
  destruct (Z.ltb_spec ch 0x10000); [| lia].
  destruct (Z.leb_spec 0xD800 ch); destruct (Z.leb_spec ch 0xDFFF);
    cbn [andb]; try lia; reflexivity.
Qed.

Lemma is_scalar_value_spec ch :
  Py.is_scalar_value ch = true
  <-> 0 <= ch < 0x110000 /\ ~ (0xD800 <= ch <= 0xDFFF).
Proof.
  unfold Py.is_scalar_value.
  destruct (Z.leb_spec 0 ch); destruct (Z.ltb_spec ch 0x110000);
    destruct (Z.leb_spec 0xD800 ch); destruct (Z.leb_spec ch 0xDFFF);
    simpl; split; intros; try discriminate; try lia; auto.
Qed.

Lemma utf8_encode_char_Ok_scalar ch bs :
  Py.utf8_encode_char ch = Ok bs -> Py.is_scalar_value ch = true.
Proof.
  intros Henc. apply is_scalar_value_spec.
  destruct (Z.lt_ge_cases ch 0) as [Hneg | Hpos].
  { unfold Py.utf8_encode_char in Henc.
    destruct (Z.ltb_spec ch 0); [discriminate | lia]. }
  destruct (Z.lt_ge_cases ch 0x110000) as [Hlt | Hge].
  - split; [lia |]. intros Hsur.
    rewrite utf8_encode_char_surrogate in Henc by exact Hsur. discriminate.
  - unfold Py.utf8_encode_char in Henc.
    destruct (Z.ltb_spec ch 0); [lia |].
    destruct (Z.ltb_spec ch 0x80); [lia |].
    destruct (Z.ltb_spec ch 0x800); [lia |].
    destruct (Z.ltb_spec ch 0x10000); [lia |].
    destruct (Z.ltb_spec ch 0x110000); [lia | discriminate].
Qed.

Lemma scalar_utf8_encode_char ch :
  Py.is_scalar_value ch = true -> exists bs, Py.utf8_encode_char ch = Ok bs.
Proof.
  intros Hs. apply is_scalar_value_spec in Hs. destruct Hs as [Hr Hs].
  assert (Hcase : 0 <= ch < 0x80 \/ 0x80 <= ch < 0x800
                  \/ 0x800 <= ch < 0x10000 \/ 0x10000 <= ch < 0x110000) by lia.
  destruct Hcase as [H1 | [H2 | [H3 | H4]]].
  - eexists. apply utf8_encode_char_1. exact H1.
  - eexists. apply utf8_encode_char_2. exact H2.
  - eexists. apply utf8_encode_char_3; assumption.
  - eexists. apply utf8_encode_char_4. exact H4.
Qed.

(** ** The UTF-8 decoder on well-formed sequences *)

Ltac compare_bytes :=
  repeat match goal with
  | |- context [?a <? ?b] => destruct (Z.ltb_spec a b); try lia
  | |- context [?a =? ?b] => destruct (Z.eqb_spec a b); try lia
  end.

Lemma is_continuation_byte_true b :
  0x80 <= b < 0xC0 -> Py.is_continuation_byte b = true.
Proof.
  intros Hb. unfold Py.is_continuation_byte.
  destruct (Z.leb_spec 0x80 b); [| lia].
  destruct (Z.ltb_spec b 0xC0); [reflexivity | lia].
Qed.

(** Runs the decoder over the bytes named in the goal: decides the
    comparisons from the bounds in the context and opens the tails one
    after the other. *)
Ltac run_decoder :=
  repeat first
    [ progress compare_bytes
    | rewrite is_continuation_byte_true by lia; cbn [negb orb]
    | match goal with s := _ :: _ |- _ => subst s; cbv beta iota end ];
  rewrite ?shiftl_18, ?shiftl_12, ?shiftl_6; try reflexivity.

Lemma decode_utf8_1 e b r :
  0 <= b < 0x80 ->
  Py.decode_utf8 e (b :: r) = Py.emit b (Py.decode_utf8 e r).
Proof.
  intros Hb. cbn [Py.decode_utf8]. run_decoder.
Qed.

Lemma decode_utf8_2 e b0 b1 r :
  0xC2 <= b0 < 0xE0 -> 0x80 <= b1 < 0xC0 ->
  Py.decode_utf8 e (b0 :: b1 :: r)
  = Py.emit (b0 * 64 + b1 - 12416) (Py.decode_utf8 e r).
Proof.
  intros H0 H1. set (s1 := b1 :: r).
  cbn [Py.decode_utf8]. run_decoder.
Qed.

Lemma decode_utf8_3 e b0 b1 b2 r :
  0xE0 <= b0 < 0xF0 -> 0x80 <= b1 < 0xC0 -> 0x80 <= b2 < 0xC0 ->
  (b0 = 0xE0 -> 0xA0 <= b1) -> (b0 = 0xED -> b1 < 0xA0) ->
  Py.decode_utf8 e (b0 :: b1 :: b2 :: r)
  = Py.emit (b0 * 4096 + b1 * 64 + b2 - 925824) (Py.decode_utf8 e r).
Proof.
  intros H0 H1 H2 Hlow Hsur. set (s2 := b2 :: r). set (s1 := b1 :: s2).
  cbn [Py.decode_utf8]. run_decoder.
Qed.

Lemma decode_utf8_4 e b0 b1 b2 b3 r :
  0xF0 <= b0 < 0xF5 ->
  0x80 <= b1 < 0xC0 -> 0x80 <= b2 < 0xC0 -> 0x80 <= b3 < 0xC0 ->
  (b0 = 0xF0 -> 0x90 <= b1) -> (b0 = 0xF4 -> b1 < 0x90) ->
  Py.decode_utf8 e (b0 :: b1 :: b2 :: b3 :: r)
  = Py.emit (b0 * 262144 + b1 * 4096 + b2 * 64 + b3 - 63447168)
            (Py.decode_utf8 e r).
Proof.
  intros H0 H1 H2 H3 Hlow Hhigh.
  set (s3 := b3 :: r). set (s2 := b2 :: s3). set (s1 := b1 :: s2).
  cbn [Py.decode_utf8]. run_decoder.
Qed.

(** Decoding the UTF-8 form of one character gives the character back and
    leaves the rest of the input to be decoded. *)
Lemma decode_utf8_encode_char e ch bs r :
  Py.utf8_encode_char ch = Ok bs ->
  Py.decode_utf8 e (bs ++ r) = Py.emit ch (Py.decode_utf8 e r).
Proof.
  intros Henc.
  pose proof (utf8_encode_char_Ok_scalar _ _ Henc) as Hs.
  apply is_scalar_value_spec in Hs. destruct Hs as [Hr Hs].
  assert (Hcase : 0 <= ch < 0x80 \/ 0x80 <= ch < 0x800
                  \/ 0x800 <= ch < 0x10000 \/ 0x10000 <= ch < 0x110000) by lia.
  destruct Hcase as [H1 | [H2 | [H3 | H4]]].
  - rewrite utf8_encode_char_1 in Henc by exact H1.
    apply Ok_inj in Henc. subst bs. apply decode_utf8_1. exact H1.
  - rewrite utf8_encode_char_2 in Henc by exact H2.
    apply Ok_inj in Henc. subst bs. cbn [app].
    rewrite decode_utf8_2 by euclid. f_equal. euclid.
  - rewrite utf8_encode_char_3 in Henc by assumption.
    apply Ok_inj in Henc. subst bs. cbn [app].
    rewrite decode_utf8_3 by euclid. f_equal. euclid.
  - rewrite utf8_encode_char_4 in Henc by exact H4.
    apply Ok_inj in Henc. subst bs. cbn [app].
    rewrite decode_utf8_4 by euclid. f_equal. euclid.
Qed.

(** Everything [str.encode] writes is read back by [bytes.decode], whatever
    the error handler: it never meets an error. *)
Lemma decode_utf8_encode_utf8 e s bs :
  Py.encode_utf8 s = Ok bs -> Py.decode_utf8 e bs = Ok s.
Proof.
  revert bs. induction s as [| ch s IH]; intros bs Henc; simpl in Henc.
  - injection Henc as <-. reflexivity.
  - apply bind_Ok_inv in Henc. destruct Henc as (cs & Hch & Henc).
    apply bind_Ok_inv in Henc. destruct Henc as (rest & Hrest & Henc).
    injection Henc as <-.
    rewrite (decode_utf8_encode_char e ch cs rest Hch).
    rewrite (IH rest Hrest). reflexivity.
Qed.

Lemma encode_utf8_scalar s :
  Forall (fun ch => Py.is_scalar_value ch = true) s ->
  exists bs, Py.encode_utf8 s = Ok bs.
Proof.
  induction 1 as [| ch s Hch _ IH]; simpl.
  - eexists. reflexivity.
  - destruct (scalar_utf8_encode_char ch Hch) as [cs ->].
    destruct IH as [rest ->]. simpl. eexists. reflexivity.
Qed.

Lemma encode_utf8_Ok_scalar s bs :
  Py.encode_utf8 s = Ok bs ->
  Forall (fun ch => Py.is_scalar_value ch = true) s.
Proof.
  revert bs. induction s as [| ch s IH]; intros bs Henc; simpl in Henc.
  - constructor.
  - apply bind_Ok_inv in Henc. destruct Henc as (cs & Hch & Henc).
    apply bind_Ok_inv in Henc. destruct Henc as (rest & Hrest & _).
    constructor; [eapply utf8_encode_char_Ok_scalar; eauto | eauto].
Qed.

(** The bytes [str.encode] writes never exceed 0xF4. *)
Lemma utf8_encode_char_bytes ch bs :
  Py.utf8_encode_char ch = Ok bs ->
  bs <> [] /\ Forall (fun b => 0 <= b <= 0xF4) bs.
Proof.
  intros Henc.
  pose proof (utf8_encode_char_Ok_scalar _ _ Henc) as Hs.
  apply is_scalar_value_spec in Hs. destruct Hs as [Hr Hs].
  assert (Hcase : 0 <= ch < 0x80 \/ 0x80 <= ch < 0x800
                  \/ 0x800 <= ch < 0x10000 \/ 0x10000 <= ch < 0x110000) by lia.
  destruct Hcase as [H1 | [H2 | [H3 | H4]]].
  - rewrite utf8_encode_char_1 in Henc by exact H1.
    apply Ok_inj in Henc. subst bs.
    split; [discriminate | repeat constructor; lia].
  - rewrite utf8_encode_char_2 in Henc by exact H2.
    apply Ok_inj in Henc. subst bs.
    split; [discriminate | repeat constructor; euclid].
  - rewrite utf8_encode_char_3 in Henc by assumption.
    apply Ok_inj in Henc. subst bs.
    split; [discriminate | repeat constructor; euclid].
  - rewrite utf8_encode_char_4 in Henc by exact H4.
    apply Ok_inj in Henc. subst bs.
    split; [discriminate | repeat constructor; euclid].
Qed.

Lemma encode_utf8_bytes s bs :
  Py.encode_utf8 s = Ok bs -> Forall (fun b => 0 <= b <= 0xF4) bs.
Proof.
  revert bs. induction s as [| ch s IH]; intros bs Henc; simpl in Henc.
  - apply Ok_inj in Henc. subst bs. constructor.
  - apply bind_Ok_inv in Henc. destruct Henc as (cs & Hch & Henc).
    apply bind_Ok_inv in Henc. destruct Henc as (rest & Hrest & Henc).
    apply Ok_inj in Henc. subst bs.
    apply Forall_app. split.
    + apply (utf8_encode_char_bytes ch cs Hch).
    + apply IH. exact Hrest.
Qed.

Lemma encode_utf8_nonempty s bs :
  Py.encode_utf8 s = Ok bs -> s <> [] -> bs <> [].
Proof.
  destruct s as [| ch s]; intros Henc Hne; [contradiction |].
  simpl in Henc.
  apply bind_Ok_inv in Henc. destruct Henc as (cs & Hch & Henc).
  apply bind_Ok_inv in Henc. destruct Henc as (rest & Hrest & Henc).
  apply Ok_inj in Henc. subst bs.
  destruct (utf8_encode_char_bytes ch cs Hch) as [Hcs _].
  destruct cs; [contradiction | discriminate].
Qed.

(** ** The UTF-8 decoder with [errors="ignore"] never raises *)

Lemma emit_Ok ch (r : result Py.str) :
  (exists s, r = Ok s) -> exists s, Py.emit ch r = Ok s.
Proof. intros [s ->]. simpl. eexists. reflexivity. Qed.

Lemma decode_utf8_ignore_bounded (n : nat) :
  forall s, (length s <= n)%nat -> exists r, Py.decode_utf8 Py.ignore s = Ok r.
Proof.
  induction n as [| n IH]; intros s Hlen.
  - destruct s; [eexists; reflexivity | simpl in Hlen; lia].
  - destruct s as [| ch s1]; [eexists; reflexivity |].
    cbn [Py.decode_utf8].
    repeat match goal with
    | |- context [match ?l with [] => _ | _ :: _ => _ end] =>
        destruct l; simpl length in Hlen
    | |- context [if ?c then _ else _] => destruct c
    end;
    repeat match goal with
           | |- exists _, Py.emit _ _ = _ => apply emit_Ok
           | |- exists _, Py.on_error Py.ignore _ = _ => unfold Py.on_error
           end;
    try (eexists; reflexivity);
    apply IH; simpl length; lia.
Qed.

Lemma decode_utf8_ignore_total s :
  exists r, Py.decode_utf8 Py.ignore s = Ok r.
Proof. apply (decode_utf8_ignore_bounded (length s)). lia. Qed.

(** ** Truncation at the terminator *)

Lemma before_first_absent eos ids :
  ~ In eos ids -> Spec.before_first eos ids = ids.
Proof.
  induction ids as [| i ids IH]; intros Hnot; simpl; [reflexivity |].
  destruct (Z.eqb_spec i eos) as [-> | Hne].
  - exfalso. apply Hnot. left. reflexivity.
  - rewrite IH; [reflexivity |]. intros Hin. apply Hnot. right. exact Hin.
Qed.

Lemma before_first_app eos pre post :
  ~ In eos pre -> Spec.before_first eos (pre ++ eos :: post) = pre.
Proof.
  induction pre as [| i pre IH]; intros Hnot; simpl.
  - rewrite Z.eqb_refl. reflexivity.
  - destruct (Z.eqb_spec i eos) as [-> | Hne].
    + exfalso. apply Hnot. left. reflexivity.
    + rewrite IH; [reflexivity |]. intros Hin. apply Hnot. right. exact Hin.
Qed.

Lemma before_first_no_eos eos ids : ~ In eos (Spec.before_first eos ids).
Proof.
  induction ids as [| i ids IH]; simpl; [tauto |].
  destruct (Z.eqb_spec i eos) as [-> | Hne]; simpl; [tauto |].
  intros [Heq | Hin]; [congruence | exact (IH Hin)].
Qed.

(** A sequence containing the terminator splits at its first occurrence. *)
Lemma split_at_first eos ids :
  In eos ids ->
  exists post, ids = Spec.before_first eos ids ++ eos :: post.
Proof.
  induction ids as [| i ids IH]; intros Hin; [destruct Hin |].
  simpl. destruct (Z.eqb_spec i eos) as [-> | Hne].
  - exists ids. reflexivity.
  - destruct Hin as [Heq | Hin]; [congruence |].
    destruct (IH Hin) as [post Hpost]. exists post.
    simpl. rewrite <- Hpost. reflexivity.
Qed.

Lemma contains_In eos ids : Py.contains eos ids = true <-> In eos ids.
Proof.
  unfold Py.contains. rewrite existsb_exists. split.
  - intros (x & Hin & Heq). apply Z.eqb_eq in Heq. subst x. exact Hin.
  - intros Hin. exists eos. split; [exact Hin | apply Z.eqb_refl].
Qed.

(** [l[:l.index(eos)]] is the part before the first terminator. *)
Lemma index_before_first eos ids :
  In eos ids ->
  exists k, Py.index eos ids = Ok k /\ firstn k ids = Spec.before_first eos ids.
Proof.
  induction ids as [| i ids IH]; intros Hin; [destruct Hin |].
  simpl. destruct (Z.eqb_spec i eos) as [-> | Hne].
  - exists O. split; reflexivity.
  - destruct Hin as [Heq | Hin]; [congruence |].
    destruct (IH Hin) as (k & Hk & Hfirst).
    exists (S k). rewrite Hk. simpl. rewrite Hfirst. split; reflexivity.
Qed.

(** The guarded slice of [Vocabulary.decode]. *)
Lemma truncate_python eos ids :
  (if Py.contains eos ids
   then k <- Py.index eos ids ;; Ok (firstn k ids)
   else Ok ids)
  = Ok (Spec.before_first eos ids).
Proof.
  destruct (Py.contains eos ids) eqn:Hc.
  - apply contains_In in Hc.
    destruct (index_before_first eos ids Hc) as (k & -> & Hfirst).
    simpl. rewrite Hfirst. reflexivity.
  - rewrite before_first_absent; [reflexivity |].
    intros Hin. apply contains_In in Hin. congruence.
Qed.

Lemma substitute_python base unk ids :
  map (fun i => if i >=? base then unk else i) ids
  = Spec.substitute_unk base unk ids.
Proof.
  unfold Spec.substitute_unk. apply map_ext. intros i.
  rewrite Z.geb_leb. reflexivity.
Qed.

(** [Vocabulary.decode] hands the cleaned sequence to the primitive decoder. *)
Lemma decode_body_clean unk eos base prim ids :
  decode_body unk eos base prim ids = prim (Spec.clean unk eos base ids).
Proof.
  unfold decode_body, Spec.clean.
  destruct unk as [unk |]; destruct eos as [eos |];
    rewrite ?substitute_python, ?truncate_python; reflexivity.
Qed.

(** ** The tensor form of the two cleaning steps *)

Lemma where_less_substitute base unk ids :
  tf.where_ (tf.less ids base) ids unk = Spec.substitute_unk base unk ids.
Proof.
  unfold tf.where_, tf.less, Spec.substitute_unk.
  induction ids as [| i ids IH]; simpl; [reflexivity |].
  rewrite IH. f_equal.
  destruct (Z.ltb_spec i base); destruct (Z.leb_spec base i); lia || reflexivity.
Qed.

Lemma first_true_equal eos ids :
  match tf.first_true (tf.equal ids eos) with
  | Some k => In eos ids /\ firstn k ids = Spec.before_first eos ids
  | None => ~ In eos ids
  end.
Proof.
  induction ids as [| i ids IH]; simpl; [tauto |].
  destruct (Z.eqb_spec i eos) as [-> | Hne].
  - split; [left; reflexivity | reflexivity].
  - destruct (tf.first_true (tf.equal ids eos)) as [k |]; simpl.
    + destruct IH as [Hin Hfirst]. split; [right; exact Hin |].
      rewrite Hfirst. reflexivity.
    + intros [Heq | Hin]; [congruence | exact (IH Hin)].
Qed.

(** The argmax scan and the guarded slice of [Vocabulary.decode_tf], on a
    tensor that is not empty. *)
Lemma truncate_tensor eos ids :
  ids <> [] ->
  (first_eos <- tf.argmax (tf.equal ids eos) ;;
   head <- tf.getitem0 ids ;;
   Ok (tf.cond (tf.logical_and (tf.equal_nat first_eos 0)
                               (tf.not_equal head eos))
               (fun _ => ids)
               (fun _ => tf.slice_to ids first_eos)))
  = Ok (Spec.before_first eos ids).
Proof.
  intros Hne. destruct ids as [| i ids]; [contradiction |].
  pose proof (first_true_equal eos (i :: ids)) as Hscan.
  unfold tf.argmax, tf.getitem0, tf.cond, tf.logical_and, tf.equal_nat,
    tf.not_equal, tf.slice_to.
  cbn [tf.equal map bind] in *.
  destruct (tf.first_true ((i =? eos) :: map (fun i0 => i0 =? eos) ids))
    as [k |] eqn:Hk.
  - destruct Hscan as [_ Hfirst]. simpl in Hk.
    destruct (Z.eqb_spec i eos) as [-> | Hi].
    + injection Hk as <-. simpl. rewrite Z.eqb_refl. reflexivity.
    + destruct (tf.first_true (map (fun i0 => i0 =? eos) ids));
        [| discriminate].
      injection Hk as <-. cbn [Nat.eqb andb]. rewrite Hfirst. reflexivity.
  - rewrite (before_first_absent eos (i :: ids) Hscan).
    cbn [Nat.eqb andb].
    destruct (Z.eqb_spec i eos) as [-> | Hi]; [| reflexivity].
    exfalso. apply Hscan. left. reflexivity.
Qed.

(** The scan reports position 0 when there is no terminator at all. *)
Lemma argmax_absent eos ids :
  ids <> [] -> ~ In eos ids -> tf.argmax (tf.equal ids eos) = Ok O.
Proof.
  intros Hne Hnot. pose proof (first_true_equal eos ids) as Hscan.
  destruct ids as [| i ids]; [contradiction |].
  unfold tf.argmax. cbn [tf.equal map] in *.
  destruct (tf.first_true ((i =? eos) :: map (fun i0 => i0 =? eos) ids)).
  - destruct Hscan as [Hin _]. contradiction.
  - reflexivity.
Qed.

Section VocabularyFacts.

Context {V : Type} `{Vocabulary V}.

Lemma decode_clean (self : V) ids :
  decode self ids
  = _decode self
      (Spec.clean (unk_id self) (eos_id self) (_base_vocab_size self) ids).
Proof. unfold decode. apply decode_body_clean. Qed.

Lemma decode_tf_clean (self : V) ids :
  ids <> [] ->
  decode_tf self ids
  = _decode_tf self
      (Spec.clean (unk_id self) (eos_id self) (_base_vocab_size self) ids).
Proof.
  intros Hne. unfold decode_tf, Spec.clean, tf.constant.
  assert (Hsub : forall unk,
             Spec.substitute_unk (_base_vocab_size self) unk ids <> []).
  { intros unk. destruct ids; [contradiction | discriminate]. }
  destruct (unk_id self) as [unk |]; destruct (eos_id self) as [eos |];
    rewrite ?where_less_substitute, ?truncate_tensor by auto; reflexivity.
Qed.

End VocabularyFacts.

(** ** The byte vocabulary *)

Lemma bytes_in_range ids :
  Forall (fun i => 0 <= i < 256) ids -> Py.bytes ids = Ok ids.
Proof.
  intros Hall. unfold Py.bytes.
  replace (forallb (fun i => (0 <=? i) && (i <? 256)) ids) with true;
    [reflexivity |].
  symmetry. apply forallb_forall. intros i Hin.
  rewrite Forall_forall in Hall. specialize (Hall i Hin).
  apply andb_true_iff. split; [apply Z.leb_le | apply Z.ltb_lt]; lia.
Qed.

Lemma is_content_id_spec i : Spec.is_content_id i = true <-> 3 <= i <= 258.
Proof.
  unfold Spec.is_content_id. rewrite andb_true_iff, !Z.leb_le. tauto.
Qed.

Lemma filter_non_string_ids_content k ids :
  ByteVocabulary._filter_non_string_ids (ByteVocabulary.__init__ k) ids
  = filter Spec.is_content_id ids.
Proof.
  unfold ByteVocabulary._filter_non_string_ids. apply filter_ext. intros i.
  unfold Spec.is_content_id. cbn [ByteVocabulary.__init__
    ByteVocabulary._num_special_tokens ByteVocabulary._byte_size].
  f_equal. destruct (Z.ltb_spec i (256 + 3)); destruct (Z.leb_spec i 258);
    lia || reflexivity.
Qed.

(** The primitive decoder: content ids, moved down by 3, read as UTF-8. *)
Lemma primitive_decode_content k ids :
  ByteVocabulary._decode (ByteVocabulary.__init__ k) ids
  = Py.decode_utf8 Py.ignore (map (fun i => i - 3) (filter Spec.is_content_id ids)).
Proof.
  unfold ByteVocabulary._decode, ByteVocabulary._convert_ids_to_strings.
  rewrite filter_non_string_ids_content.
  cbn [ByteVocabulary.__init__ ByteVocabulary._num_special_tokens].
  rewrite bytes_in_range; [reflexivity |].
  apply Forall_forall. intros b Hin.
  apply in_map_iff in Hin. destruct Hin as (i & <- & Hin).
  apply filter_In in Hin. destruct Hin as [_ Hc].
  apply is_content_id_spec in Hc. lia.
Qed.

(** Substituting the unknown id changes neither where the first terminator
    is nor which content ids precede it. *)
Lemma content_before_first_substitute ids :
  filter Spec.is_content_id
    (Spec.before_first EOS_ID (Spec.substitute_unk 259 UNK_ID ids))
  = filter Spec.is_content_id (Spec.before_first EOS_ID ids).
Proof.
  unfold EOS_ID, UNK_ID.
  induction ids as [| i ids IH]; simpl; [reflexivity |].
  destruct (Z.leb_spec 259 i) as [Hbig | Hsmall].
  - destruct (Z.eqb_spec i 1); [lia |]. simpl. rewrite IH.
    unfold Spec.is_content_id.
    destruct (Z.leb_spec 3 i); destruct (Z.leb_spec i 258);
      simpl; lia || reflexivity.
  - destruct (Z.eqb_spec i 1); [reflexivity |]. simpl. rewrite IH. reflexivity.
Qed.

Lemma byte_vocabulary_clean k ids :
  let self := ByteVocabulary.__init__ k in
  Spec.clean (unk_id self) (eos_id self) (_base_vocab_size self) ids
  = Spec.before_first EOS_ID (Spec.substitute_unk 259 UNK_ID ids).
Proof. reflexivity. Qed.

(** [ByteVocabulary.decode], in one equation. *)
Lemma byte_decode_text k ids :
  decode (ByteVocabulary.__init__ k) ids = Spec.byte_text ids.
Proof.
  rewrite decode_clean, byte_vocabulary_clean.
  change (_decode (ByteVocabulary.__init__ k))
    with (ByteVocabulary._decode (ByteVocabulary.__init__ k)).
  rewrite primitive_decode_content, content_before_first_substitute.
  reflexivity.
Qed.

Lemma byte_encode_ids k s :
  encode (ByteVocabulary.__init__ k) s = Spec.byte_ids s.
Proof. reflexivity. Qed.

Lemma byte_ids_content s ids :
  Spec.byte_ids s = Ok ids ->
  exists bs, Py.encode_utf8 s = Ok bs /\ ids = map (fun b => b + 3) bs
             /\ Forall (fun i => 3 <= i <= 247) ids.
Proof.
  unfold Spec.byte_ids. intros Hids.
  apply bind_Ok_inv in Hids. destruct Hids as (bs & Hbs & Hids).
  apply Ok_inj in Hids. subst ids. exists bs. repeat split; auto.
  apply Forall_forall. intros i Hin.
  apply in_map_iff in Hin. destruct Hin as (b & <- & Hin).
  pose proof (encode_utf8_bytes s bs Hbs) as Hall.
  rewrite Forall_forall in Hall. specialize (Hall b Hin). lia.
Qed.

Lemma filter_all_content ids :
  Forall (fun i => 3 <= i <= 258) ids -> filter Spec.is_content_id ids = ids.
Proof.
  induction 1 as [| i ids Hi _ IH]; simpl; [reflexivity |].
  apply is_content_id_spec in Hi. rewrite Hi, IH. reflexivity.
Qed.

Lemma filter_no_content ids :
  Forall (fun i => ~ 3 <= i <= 258) ids -> filter Spec.is_content_id ids = [].
Proof.
  induction 1 as [| i ids Hi _ IH]; simpl; [reflexivity |].
  destruct (Spec.is_content_id i) eqn:Hc; [| exact IH].
  apply is_content_id_spec in Hc. contradiction.
Qed.

Lemma content_no_eos ids :
  Forall (fun i => 3 <= i <= 258) ids -> ~ In EOS_ID ids.
Proof.
  intros Hall Hin. rewrite Forall_forall in Hall.
  specialize (Hall _ Hin). unfold EOS_ID in Hall. lia.
Qed.

Lemma shift_down_up bs : map (fun i => i - 3) (map (fun b => b + 3) bs) = bs.
Proof.
  rewrite map_map. rewrite <- (map_id bs) at 2. apply map_ext. intros b. lia.
Qed.

Lemma narrow_content ids :
  Forall (fun i => 3 <= i <= 247) ids -> Forall (fun i => 3 <= i <= 258) ids.
Proof. apply Forall_impl. intros i Hi. lia. Qed.

(** Whatever the byte vocabulary encodes, it decodes to the same string. *)
Lemma byte_text_byte_ids s ids :
  Spec.byte_ids s = Ok ids -> Spec.byte_text ids = Ok s.
Proof.
  intros Hids.
  destruct (byte_ids_content s ids Hids) as (bs & Hbs & -> & Hall).
  apply narrow_content in Hall.
  unfold Spec.byte_text.
  rewrite before_first_absent by (apply content_no_eos; exact Hall).
  rewrite filter_all_content by exact Hall.
  rewrite shift_down_up. apply decode_utf8_encode_utf8. exact Hbs.
Qed.

Lemma byte_ids_scalar s :
  Forall (fun ch => Py.is_scalar_value ch = true) s ->
  exists ids, Spec.byte_ids s = Ok ids.
Proof.
  intros Hs. destruct (encode_utf8_scalar s Hs) as [bs Hbs].
  unfold Spec.byte_ids. rewrite Hbs. simpl. eexists. reflexivity.
Qed.

Lemma before_first_Forall (P : Z -> Prop) eos ids :
  Forall P ids -> Forall P (Spec.before_first eos ids).
Proof.
  induction 1 as [| i ids Hi _ IH]; simpl; [constructor |].
  destruct (i =? eos); [constructor | constructor; assumption].
Qed.

(** [self.decode] inside [ByteVocabulary._decode_tf] is the method
    inherited from [Vocabulary]. *)
Lemma byte_decode_inherited (self : ByteVocabulary.t) ids :
  ByteVocabulary.decode self ids = decode self ids.
Proof. reflexivity. Qed.

(** On the byte vocabulary, decoding any sequence is decoding its part
    before the first terminator. *)
Lemma byte_decode_before_first k ids :
  decode (ByteVocabulary.__init__ k) ids
  = decode (ByteVocabulary.__init__ k) (Spec.before_first EOS_ID ids).
Proof.
  rewrite !byte_decode_text. unfold Spec.byte_text.
  rewrite (before_first_absent EOS_ID (Spec.before_first EOS_ID ids))
    by apply before_first_no_eos.
  reflexivity.
Qed.

(** The codec on a few inputs: "h\u00e9" and its ids, a sequence with a
    terminator, a cut-off and an overlong sequence, bytes that wrap in the
    tensor encoder. *)
Example encode_h_e_acute :
  encode (ByteVocabulary.__init__ 0) [0x68; 0xE9] = Ok [107; 198; 172].
Proof. reflexivity. Qed.

Example decode_with_terminator :
  decode (ByteVocabulary.__init__ 0) [107; 198; 172; 1; 107] = Ok [0x68; 0xE9].
Proof. reflexivity. Qed.

Example decode_cut_off_sequence :
  decode (ByteVocabulary.__init__ 0) [0xE4 + 3; 0xB8 + 3; 0x61 + 3] = Ok [0x61].
Proof. reflexivity. Qed.

Example decode_overlong_sequence :
  decode (ByteVocabulary.__init__ 0) [0xC0 + 3; 0x80 + 3; 0x41 + 3] = Ok [0x41].
Proof. reflexivity. Qed.

Example encode_tf_wraps :
  encode_tf (ByteVocabulary.__init__ 0) [0x41; 0xFD; 0xFE; 0xFF]
  = Ok [68; 0; 1; 2].
Proof. reflexivity. Qed.

Example decode_tf_with_terminator :
  decode_tf (ByteVocabulary.__init__ 0) [107; 198; 172; 1; 107]
  = Ok [0x68; 0xC3; 0xA9].
Proof. reflexivity. Qed.

(** ** Cleaning steps that commute or do nothing *)

Lemma substitute_below base unk ids :
  Forall (fun i => i < base) ids -> Spec.substitute_unk base unk ids = ids.
Proof.
  unfold Spec.substitute_unk.
  induction 1 as [| i ids Hi _ IH]; simpl; [reflexivity |].
  rewrite IH. destruct (Z.leb_spec base i); [lia | reflexivity].
Qed.

Lemma substitute_length base unk ids :
  length (Spec.substitute_unk base unk ids) = length ids.
Proof. apply length_map. Qed.

(** The unknown id is not the terminator, so substitution creates no
    terminator. *)
Lemma substitute_no_eos base unk eos ids :
  unk <> eos -> ~ In eos ids -> ~ In eos (Spec.substitute_unk base unk ids).
Proof.
  intros Hunk Hnot Hin. unfold Spec.substitute_unk in Hin.
  apply in_map_iff in Hin. destruct Hin as (i & Heq & Hin).
  destruct (base <=? i); [congruence |]. subst i. contradiction.
Qed.

(** When the terminator is below the base size, substitution keeps every
    terminator, so truncation and substitution commute. *)
Lemma before_first_substitute base unk eos ids :
  unk <> eos -> eos < base ->
  Spec.before_first eos (Spec.substitute_unk base unk ids)
  = Spec.substitute_unk base unk (Spec.before_first eos ids).
Proof.
  intros Hunk Hlt. unfold Spec.substitute_unk.
  induction ids as [| i ids IH]; simpl; [reflexivity |].
  destruct (Z.leb_spec base i) as [Hbig | Hsmall].
  - destruct (Z.eqb_spec unk eos); [contradiction |].
    destruct (Z.eqb_spec i eos); [lia |].
    simpl. rewrite IH. destruct (Z.leb_spec base i); [reflexivity | lia].
  - destruct (Z.eqb_spec i eos); [reflexivity |].
    simpl. rewrite IH. destruct (Z.leb_spec base i); [lia | reflexivity].
Qed.

Lemma add_uint8_small bs :
  Forall (fun b => 0 <= b <= 0xF4) bs ->
  tf.add_uint8 bs 3 = map (fun b => b + 3) bs.
Proof.
  intros Hall. unfold tf.add_uint8. apply map_ext_in. intros b Hin.
  rewrite Forall_forall in Hall. specialize (Hall b Hin).
  apply Z.mod_small. lia.
Qed.

Section CleanFacts.

Context {V : Type} `{Vocabulary V}.

(** With the terminator in use and below the base size, cleaning is the
    substitution applied to the part before the first terminator. *)
Lemma clean_before_first (self : V) ids :
  _use_eos self = true ->
  (_use_unk self = true -> EOS_ID < _base_vocab_size self) ->
  Spec.clean (unk_id self) (eos_id self) (_base_vocab_size self) ids
  = Spec.clean (unk_id self) None (_base_vocab_size self)
               (Spec.before_first EOS_ID ids).
Proof.
  intros Heos Hbase. unfold Spec.clean, eos_id, unk_id. rewrite Heos.
  destruct (_use_unk self); [| reflexivity].
  apply before_first_substitute; [discriminate | auto].
Qed.

Lemma clean_no_eos (self : V) ids :
  ~ In EOS_ID ids ->
  Spec.clean (unk_id self) (eos_id self) (_base_vocab_size self) ids
  = Spec.clean (unk_id self) None (_base_vocab_size self) ids.
Proof.
  intros Hnot. unfold Spec.clean, eos_id, unk_id.
  destruct (_use_eos self); [| reflexivity].
  apply before_first_absent.
  destruct (_use_unk self); [| exact Hnot].
  apply substitute_no_eos; [discriminate | exact Hnot].
Qed.

End CleanFacts.

(** * The specified properties *)

(** C1.  Round trip of the byte vocabulary: for every string of Unicode
    scalar values (valid UTF-8 text; no code point collides with a special
    id, since content ids start at 3), [encode] succeeds and [decode] of its
    result is the string itself, for any number of extra ids. *)
Theorem byte_vocabulary_round_trip (k : Z) (s : Py.str) :
  Forall (fun ch => Py.is_scalar_value ch = true) s ->
  exists ids,
    encode (ByteVocabulary.__init__ k) s = Ok ids
    /\ decode (ByteVocabulary.__init__ k) ids = Ok s.
Proof.
  intros Hs. destruct (byte_ids_scalar s Hs) as [ids Hids].
  exists ids. rewrite byte_encode_ids, byte_decode_text.
  split; [exact Hids | apply byte_text_byte_ids; exact Hids].
Qed.

Lemma byte_vocabulary_round_trip_witness :
  Forall (fun ch => Py.is_scalar_value ch = true) [104; 233; 0x4E2D; 0x1F600]
  /\ exists ids,
       encode (ByteVocabulary.__init__ 0) [104; 233; 0x4E2D; 0x1F600] = Ok ids
       /\ decode (ByteVocabulary.__init__ 0) ids
          = Ok [104; 233; 0x4E2D; 0x1F600].
Proof.
  assert (Hs : Forall (fun ch => Py.is_scalar_value ch = true)
                      [104; 233; 0x4E2D; 0x1F600])
    by (repeat constructor).
  split; [exact Hs | exact (byte_vocabulary_round_trip 0 _ Hs)].
Defined.

(** C3.  [ByteVocabulary.encode] is the UTF-8 form of the string with every
    byte moved up by 3: it raises exactly when [str.encode] does, and a
    result has one id per UTF-8 byte, each byte in 0..255, and none of the
    ids is the pad, end-of-sequence or unknown id.  On a string of scalar
    values there is a result. *)
Theorem byte_encode_shifted_utf8 (k : Z) (s : Py.str) :
  let self := ByteVocabulary.__init__ k in
  encode self s = (bs <- Py.encode_utf8 s ;; Ok (map (fun b => b + 3) bs))
  /\ (forall ids, encode self s = Ok ids ->
      exists bs,
        Py.encode_utf8 s = Ok bs
        /\ Forall (fun b => 0 <= b <= 255) bs
        /\ ids = map (fun b => b + 3) bs
        /\ length ids = length bs
        /\ Forall (fun i => i <> PAD_ID /\ i <> EOS_ID /\ i <> UNK_ID) ids)
  /\ (Forall (fun ch => Py.is_scalar_value ch = true) s ->
      exists ids, encode self s = Ok ids).
Proof.
  intros self. split; [reflexivity |]. split.
  - intros ids Hids. unfold self in Hids. rewrite byte_encode_ids in Hids.
    destruct (byte_ids_content s ids Hids) as (bs & Hbs & Heq & Hall).
    exists bs. split; [exact Hbs |]. split.
    + eapply Forall_impl; [| exact (encode_utf8_bytes s bs Hbs)].
      intros b Hb. simpl in Hb. lia.
    + split; [exact Heq |]. split.
      * rewrite Heq. apply length_map.
      * eapply Forall_impl; [| exact Hall].
        intros i Hi. unfold PAD_ID, EOS_ID, UNK_ID. simpl in Hi. lia.
  - intros Hs. unfold self. exact (byte_ids_scalar s Hs).
Qed.

(** C4.  [ByteVocabulary.decode] never raises, whatever integers it is
    given: its result is the UTF-8 reading, malformed parts dropped, of the
    ids in 3..258 that precede the first terminator, each moved down by 3;
    every other id is filtered out.  When no element is in 3..258 the result
    is the empty string, as for [decode([300])] with no extra ids. *)
Theorem byte_decode_total (k : Z) (ids : list Z) :
  let self := ByteVocabulary.__init__ k in
  (exists s, decode self ids = Ok s)
  /\ decode self ids
     = Py.decode_utf8 Py.ignore
         (map (fun i => i - 3)
              (filter Spec.is_content_id (Spec.before_first EOS_ID ids)))
  /\ (Forall (fun i => ~ 3 <= i <= 258) ids -> decode self ids = Ok [])
  /\ decode (ByteVocabulary.__init__ 0) [300] = Ok [].
Proof.
  intros self. unfold self. rewrite byte_decode_text. unfold Spec.byte_text.
  split; [apply decode_utf8_ignore_total |].
  split; [reflexivity |]. split; [| reflexivity].
  intros Hout.
  rewrite filter_no_content by (apply before_first_Forall; exact Hout).
  reflexivity.
Qed.

(** C7.  The vocabulary size of a byte vocabulary with [k] extra ids is
    [259 + k], the base size being 3 special ids plus 256 byte values. *)
Theorem byte_vocab_size (k : Z) :
  _base_vocab_size (ByteVocabulary.__init__ k) = 3 + 256
  /\ vocab_size (ByteVocabulary.__init__ k) = 259 + k.
Proof. split; reflexivity. Qed.

(** C8.  [ByteVocabulary.__eq__] holds exactly when the two [extra_ids]
    agree; the other attributes play no part, so instances that differ in
    all of them are equal as soon as their [extra_ids] are. *)
Theorem byte_eq_extra_ids_only (a b : ByteVocabulary.t) :
  (ByteVocabulary.__eq__ a b = true <-> extra_ids a = extra_ids b)
  /\ (forall (size size' special special' k : Z) (eos eos' unk unk' : bool),
      ByteVocabulary.__eq__
        {| ByteVocabulary._byte_size := size;
           ByteVocabulary._num_special_tokens := special;
           ByteVocabulary.extra_ids_ := k;
           ByteVocabulary.use_eos_ := eos;
           ByteVocabulary.use_unk_ := unk |}
        {| ByteVocabulary._byte_size := size';
           ByteVocabulary._num_special_tokens := special';
           ByteVocabulary.extra_ids_ := k;
           ByteVocabulary.use_eos_ := eos';
           ByteVocabulary.use_unk_ := unk' |} = true).
Proof.
  split.
  - unfold ByteVocabulary.__eq__. apply Z.eqb_eq.
  - intros. unfold ByteVocabulary.__eq__. simpl. apply Z.eqb_refl.
Qed.

(** C9.  [rate_unsupervised] returns its [value], one million when it is
    omitted, whatever the task: two calls with the same [value] agree on any
    two tasks, of any types. *)
Theorem rate_unsupervised_constant
    (Task Task' : Type) (task : Task) (task' : Task') (value : option float) :
  rate_unsupervised task value = rate_unsupervised task' value
  /\ rate_unsupervised task None = 1e6%float
  /\ (forall v, rate_unsupervised task (Some v) = v).
Proof. repeat split; reflexivity. Qed.

(** C2.  With the terminator in use (and, as the class requires of a
    subclass, counted in its base vocabulary size), [Vocabulary.decode] of a
    sequence that contains the terminator decodes the ids strictly before
    its first occurrence and nothing else: the sequence is that prefix, the
    terminator, and a rest; the result is that of decoding the prefix alone,
    and the primitive decoder receives just the prefix, unknown ids
    substituted. *)
Theorem decode_stops_at_first_eos
    {V : Type} `{Vocabulary V} (self : V) (ids : list Z) :
  _use_eos self = true ->
  (_use_unk self = true -> EOS_ID < _base_vocab_size self) ->
  In EOS_ID ids ->
  let prefix := Spec.before_first EOS_ID ids in
  (exists rest, ids = prefix ++ EOS_ID :: rest)
  /\ ~ In EOS_ID prefix
  /\ decode self ids = decode self prefix
  /\ decode self ids
     = _decode self
         (Spec.clean (unk_id self) None (_base_vocab_size self) prefix).
Proof.
  intros Heos Hbase Hin prefix.
  split; [exact (split_at_first EOS_ID ids Hin) |].
  split; [apply before_first_no_eos |].
  rewrite !decode_clean.
  rewrite (clean_before_first self ids Heos Hbase).
  rewrite (clean_no_eos self prefix) by apply before_first_no_eos.
  split; reflexivity.
Qed.

Lemma decode_stops_at_first_eos_witness :
  In EOS_ID [3; 4; 1; 5; 6]
  /\ decode (ByteVocabulary.__init__ 0) [3; 4; 1; 5; 6]
     = decode (ByteVocabulary.__init__ 0) [3; 4].
Proof.
  assert (Hin : In EOS_ID [3; 4; 1; 5; 6]) by (right; right; left; reflexivity).
  split; [exact Hin |].
  exact (proj1 (proj2 (proj2
    (decode_stops_at_first_eos (ByteVocabulary.__init__ 0) [3; 4; 1; 5; 6]
       eq_refl (fun _ => eq_refl) Hin)))).
Defined.

(** C5.  With the terminator in use, [Vocabulary.decode_tf] of a non-empty
    sequence without any terminator does not truncate: the argmax scan
    reports position 0, the element there is not the terminator, and the
    primitive decoder receives the whole sequence, of the same length, only
    with unknown ids substituted, hence the sequence itself when all its ids
    are below the base vocabulary size.  A terminator that really is at
    position 0 truncates to the empty sequence. *)
Theorem decode_tf_without_eos_not_truncated
    {V : Type} `{Vocabulary V} (self : V) (ids rest : list Z) :
  _use_eos self = true ->
  ids <> [] ->
  ~ In EOS_ID ids ->
  let valid_ids :=
    Spec.clean (unk_id self) None (_base_vocab_size self) ids in
  tf.argmax (tf.equal valid_ids EOS_ID) = Ok O
  /\ tf.getitem0 valid_ids <> Ok EOS_ID
  /\ length valid_ids = length ids
  /\ decode_tf self ids = _decode_tf self valid_ids
  /\ (Forall (fun i => i < _base_vocab_size self) ids ->
      decode_tf self ids = _decode_tf self ids)
  /\ ((_use_unk self = true -> EOS_ID < _base_vocab_size self) ->
      decode_tf self (EOS_ID :: rest) = _decode_tf self []).
Proof.
  intros Heos Hne Hnot valid_ids.
  assert (Hvalid_no : ~ In EOS_ID valid_ids).
  { unfold valid_ids, Spec.clean, unk_id.
    destruct (_use_unk self); [| exact Hnot].
    apply substitute_no_eos; [discriminate | exact Hnot]. }
  assert (Hvalid_len : length valid_ids = length ids).
  { unfold valid_ids, Spec.clean.
    destruct (unk_id self); [apply substitute_length | reflexivity]. }
  assert (Hvalid_ne : valid_ids <> []).
  { destruct valid_ids; [| discriminate].
    destruct ids; [contradiction | discriminate]. }
  split; [apply argmax_absent; assumption |].
  split.
  { destruct valid_ids as [| i rest']; [contradiction |].
    simpl. intros Heq. apply Ok_inj in Heq. subst i.
    apply Hvalid_no. left. reflexivity. }
  split; [exact Hvalid_len |].
  split; [rewrite decode_tf_clean by exact Hne; rewrite clean_no_eos by exact Hnot;
          reflexivity |].
  split.
  - intros Hbelow. rewrite decode_tf_clean by exact Hne.
    rewrite clean_no_eos by exact Hnot.
    unfold Spec.clean. destruct (unk_id self); [| reflexivity].
    rewrite substitute_below by exact Hbelow. reflexivity.
  - intros Hbase. rewrite decode_tf_clean by discriminate.
    rewrite (clean_before_first self (EOS_ID :: rest) Heos Hbase).
    simpl. unfold Spec.clean. destruct (unk_id self); reflexivity.
Qed.

Lemma decode_tf_without_eos_not_truncated_witness :
  [5; 6; 7] <> [] /\ ~ In EOS_ID [5; 6; 7]
  /\ decode_tf (ByteVocabulary.__init__ 0) [5; 6; 7]
     = _decode_tf (ByteVocabulary.__init__ 0) [5; 6; 7]
  /\ decode_tf (ByteVocabulary.__init__ 0) [1; 5; 6]
     = _decode_tf (ByteVocabulary.__init__ 0) [].
Proof.
  assert (Hne : [5; 6; 7] <> []) by discriminate.
  assert (Hnot : ~ In EOS_ID [5; 6; 7]).
  { unfold EOS_ID. simpl. intros [Hx | [Hx | [Hx | []]]]; discriminate. }
  split; [exact Hne |]. split; [exact Hnot |].
  pose proof (decode_tf_without_eos_not_truncated
                (ByteVocabulary.__init__ 0) [5; 6; 7] [5; 6]
                eq_refl Hne Hnot) as Hthm.
  destruct Hthm as (_ & _ & _ & Hwhole & _ & Hzero).
  split; [exact Hwhole | exact (Hzero (fun _ => eq_refl))].
Defined.

(** C10.  A byte vocabulary is built with [use_eos] and [use_unk] set,
    whatever the number of extra ids, the only argument of its constructor:
    its [eos_id] is 1 and its [unk_id] is 2, and both [decode] and
    [decode_tf] substitute the unknown id for ids from 259 on and then cut
    at the first terminator before calling the primitive decoder.  The two
    steps are those of the inherited methods, whatever the primitive
    decoders are: the body of [decode] with the attributes of the instance
    does them before any primitive decoder, and so do [decode] and
    [decode_tf] of every vocabulary that has the flags and the base
    vocabulary size of the instance. *)
Theorem byte_vocabulary_eos_unk_forced (k : Z) :
  let self := ByteVocabulary.__init__ k in
  _use_eos self = true
  /\ _use_unk self = true
  /\ eos_id self = Some 1
  /\ unk_id self = Some 2
  /\ (forall ids,
      decode self ids
      = _decode self (Spec.before_first 1 (Spec.substitute_unk 259 2 ids)))
  /\ (forall ids, ids <> [] ->
      decode_tf self ids
      = _decode_tf self (Spec.before_first 1 (Spec.substitute_unk 259 2 ids)))
  /\ (forall (primitive_decode : list Z -> result Py.str) ids,
      decode_body (unk_id self) (eos_id self) (_base_vocab_size self)
                  primitive_decode ids
      = primitive_decode
          (Spec.before_first 1 (Spec.substitute_unk 259 2 ids)))
  /\ (forall (V : Type) (other_class : Vocabulary V) (other : V),
      _use_eos other = _use_eos self ->
      _use_unk other = _use_unk self ->
      _base_vocab_size other = _base_vocab_size self ->
      forall ids,
        decode other ids
        = _decode other (Spec.before_first 1 (Spec.substitute_unk 259 2 ids))
        /\ (ids <> [] ->
            decode_tf other ids
            = _decode_tf other
                (Spec.before_first 1 (Spec.substitute_unk 259 2 ids)))).
Proof.
  intros self. repeat (split; [reflexivity |]). split; [| split; [| split]].
  - intros ids. unfold self. rewrite decode_clean. reflexivity.
  - intros ids Hne. unfold self. rewrite decode_tf_clean by exact Hne.
    reflexivity.
  - intros primitive_decode ids. rewrite decode_body_clean. reflexivity.
  - intros V other_class other Heos Hunk Hbase ids.
    assert (Hclean :
      Spec.clean (unk_id other) (eos_id other) (_base_vocab_size other) ids
      = Spec.before_first 1 (Spec.substitute_unk 259 2 ids)).
    { unfold unk_id, eos_id. rewrite Heos, Hunk, Hbase. reflexivity. }
    split.
    + rewrite decode_clean, Hclean. reflexivity.
    + intros Hne. rewrite decode_tf_clean by exact Hne.
      rewrite Hclean. reflexivity.
Qed.

(** The batched pipeline on a string that is not empty: it agrees with the
    scalar one, and both give the string back. *)
Lemma batched_pipeline_nonempty (k : Z) (s : Py.str) :
  s <> [] ->
  Forall (fun ch => Py.is_scalar_value ch = true) s ->
  Spec.batched_pipeline (ByteVocabulary.__init__ k) s = Ok s
  /\ Spec.scalar_pipeline (ByteVocabulary.__init__ k) s = Ok s.
Proof.
  intros Hne Hs. split.
  - destruct (encode_utf8_scalar s Hs) as [bs Hbs].
    assert (Hids : Spec.byte_ids s = Ok (map (fun b => b + 3) bs)).
    { unfold Spec.byte_ids. rewrite Hbs. reflexivity. }
    destruct (byte_ids_content s _ Hids) as (_ & _ & _ & Hall).
    unfold Spec.batched_pipeline, tf.constant_str. rewrite Hbs.
    cbn [bind encode_tf _encode_tf ByteVocabulary_Vocabulary].
    unfold ByteVocabulary._encode_tf, tf.decode_raw_uint8, tf.cast_int32.
    cbn [ByteVocabulary.__init__ ByteVocabulary._num_special_tokens bind].
    rewrite (add_uint8_small bs (encode_utf8_bytes s bs Hbs)).
    rewrite decode_tf_clean.
    2:{ pose proof (encode_utf8_nonempty s bs Hbs Hne) as Hbne.
        destruct bs; [contradiction | discriminate]. }
    rewrite byte_vocabulary_clean.
    rewrite substitute_below
      by (eapply Forall_impl; [| exact Hall]; intros i Hi; simpl in Hi; lia).
    rewrite before_first_absent
      by (apply content_no_eos, narrow_content; exact Hall).
    change (_decode_tf (ByteVocabulary.__init__ k) (map (fun b => b + 3) bs))
      with (tf.py_function_string (decode (ByteVocabulary.__init__ k))
              (map (fun b => b + 3) bs)).
    unfold tf.py_function_string.
    rewrite byte_decode_text, (byte_text_byte_ids s _ Hids).
    cbn [bind]. rewrite Hbs. cbn [bind].
    unfold tf.numpy_decode. apply decode_utf8_encode_utf8. exact Hbs.
  - destruct (byte_ids_scalar s Hs) as [ids Hids].
    unfold Spec.scalar_pipeline. rewrite byte_encode_ids, Hids. simpl.
    rewrite byte_decode_text. apply byte_text_byte_ids. exact Hids.
Qed.

(** C6.  On the empty string the two pipelines part: the scalar one returns
    the empty string, the batched one raises, since [decode_tf] scans an
    empty tensor with [tf.argmax] and reads its element 0. *)
Theorem batched_pipeline_empty_string (k : Z) :
  Spec.scalar_pipeline (ByteVocabulary.__init__ k) [] = Ok []
  /\ Spec.batched_pipeline (ByteVocabulary.__init__ k) []
     = Raise InvalidArgumentError
  /\ Spec.batched_pipeline (ByteVocabulary.__init__ k) []
     <> Spec.scalar_pipeline (ByteVocabulary.__init__ k) [].
Proof.
  split; [reflexivity |]. split; [reflexivity | discriminate].
Qed.


(** * Further properties of the code *)

(** ** More on the UTF-8 built-ins *)

Lemma Forall_byte_tail (b : Z) s :
  Forall (fun b => 0 <= b < 256) (b :: s) ->
  0 <= b < 256 /\ Forall (fun b => 0 <= b < 256) s.
Proof. intros Hb. inversion Hb; subst. split; assumption. Qed.

Lemma emit_inv ch x r :
  Py.emit ch x = Ok r -> exists r', x = Ok r' /\ r = ch :: r'.
Proof.
  unfold Py.emit. intros Hr. apply bind_Ok_inv in Hr.
  destruct Hr as (r' & Hx & Hr). apply Ok_inj in Hr. eauto.
Qed.

Lemma on_error_inv e x r : Py.on_error e x = Ok r -> x = Ok r.
Proof. destruct e; simpl; [discriminate | auto]. Qed.

Ltac split_bytes :=
  repeat match goal with
  | Hb : Forall (fun b => 0 <= b < 256) (_ :: _) |- _ =>
      apply Forall_byte_tail in Hb; destruct Hb as [? Hb]
  end.

(** Opens one step of the decoder in [Hdec], case by case, down to the
    recursive call or the end of the input. *)
Ltac open_decoder Hdec Hlen :=
  cbn [Py.decode_utf8] in Hdec;
  repeat match type of Hdec with
  | context [match ?l with [] => _ | _ :: _ => _ end] =>
      destruct l; simpl length in Hlen
  | context [if ?c then _ else _] => destruct c eqn:?
  end;
  try apply on_error_inv in Hdec.

(** Whatever the decoder returns on bytes is made of scalar values, and has
    at most one character per byte. *)
Lemma decode_utf8_output_bounded e (n : nat) :
  forall s r, (length s <= n)%nat ->
    Forall (fun b => 0 <= b < 256) s ->
    Py.decode_utf8 e s = Ok r ->
    Forall (fun ch => Py.is_scalar_value ch = true) r
    /\ (length r <= length s)%nat.
Proof.
  induction n as [| n IH]; intros s r Hlen Hb Hdec.
  - destruct s; [| simpl in Hlen; lia].
    apply Ok_inj in Hdec. subst r. split; [constructor | simpl; lia].
  - destruct s as [| ch s1].
    { apply Ok_inj in Hdec. subst r. split; [constructor | simpl; lia]. }
    open_decoder Hdec Hlen.
    all: try match type of Hdec with
             | Ok [] = Ok _ =>
                 apply Ok_inj in Hdec; subst r; split; [constructor | simpl; lia]
             end.
    all: try (apply emit_inv in Hdec; destruct Hdec as (r' & Hdec & ->)).
    all: apply IH in Hdec;
      [ | simpl length; lia
        | repeat first [exact Hb
                       | apply Forall_byte_tail in Hb; destruct Hb as [_ Hb]]].
    all: destruct Hdec as [Hsc Hl].
    all: split; [| simpl length in *; lia].
    all: try exact Hsc.
    all: constructor; [| exact Hsc].
    all: apply is_scalar_value_spec.
    all: split_bytes.
    all: unfold Py.is_continuation_byte in *.
    all: rewrite ?shiftl_18, ?shiftl_12, ?shiftl_6.
    all: try lia.
    all: repeat match goal with
         | Hc : context [if ?c then _ else _] |- _ => destruct c eqn:?
         end; lia.
Qed.

Lemma decode_utf8_output e s r :
  Forall (fun b => 0 <= b < 256) s ->
  Py.decode_utf8 e s = Ok r ->
  Forall (fun ch => Py.is_scalar_value ch = true) r
  /\ (length r <= length s)%nat.
Proof. apply (decode_utf8_output_bounded e (length s)). lia. Qed.

(** What [strict] accepts, [ignore] reads the same way. *)
Lemma decode_utf8_strict_ignore_bounded (n : nat) :
  forall s r, (length s <= n)%nat ->
    Py.decode_utf8 Py.strict s = Ok r -> Py.decode_utf8 Py.ignore s = Ok r.
Proof.
  induction n as [| n IH]; intros s r Hlen Hdec.
  - destruct s; [exact Hdec | simpl in Hlen; lia].
  - destruct s as [| ch s1]; [exact Hdec |].
    cbn [Py.decode_utf8] in Hdec |- *.
    repeat match type of Hdec with
    | context [match ?l with [] => _ | _ :: _ => _ end] =>
        destruct l; simpl length in Hlen
    | context [if ?c then _ else _] => destruct c eqn:?
    end;
    try discriminate Hdec;
    apply emit_inv in Hdec; destruct Hdec as (r' & Hdec & ->);
    (apply IH in Hdec; [| simpl length; lia]);
    rewrite Hdec; reflexivity.
Qed.

Lemma decode_utf8_strict_ignore s r :
  Py.decode_utf8 Py.strict s = Ok r -> Py.decode_utf8 Py.ignore s = Ok r.
Proof. apply (decode_utf8_strict_ignore_bounded (length s)). lia. Qed.

Lemma encode_utf8_app s1 s2 :
  Py.encode_utf8 (s1 ++ s2)
  = (a <- Py.encode_utf8 s1 ;; b <- Py.encode_utf8 s2 ;; Ok (a ++ b)).
Proof.
  induction s1 as [| ch s1 IH]; simpl.
  - destruct (Py.encode_utf8 s2); reflexivity.
  - destruct (Py.utf8_encode_char ch) as [cs | ex]; simpl; [| reflexivity].
    rewrite IH.
    destruct (Py.encode_utf8 s1) as [a | ex]; simpl; [| reflexivity].
    destruct (Py.encode_utf8 s2) as [b | ex]; simpl; [| reflexivity].
    rewrite app_assoc. reflexivity.
Qed.

Lemma utf8_encode_char_length ch bs :
  Py.utf8_encode_char ch = Ok bs -> (1 <= length bs <= 4)%nat.
Proof.
  intros Henc.
  pose proof (utf8_encode_char_Ok_scalar _ _ Henc) as Hs.
  apply is_scalar_value_spec in Hs. destruct Hs as [Hr Hs].
  assert (Hcase : 0 <= ch < 0x80 \/ 0x80 <= ch < 0x800
                  \/ 0x800 <= ch < 0x10000 \/ 0x10000 <= ch < 0x110000) by lia.
  destruct Hcase as [H1 | [H2 | [H3 | H4]]].
  - rewrite utf8_encode_char_1 in Henc by exact H1.
    apply Ok_inj in Henc. subst bs. simpl. lia.
  - rewrite utf8_encode_char_2 in Henc by exact H2.
    apply Ok_inj in Henc. subst bs. simpl. lia.
  - rewrite utf8_encode_char_3 in Henc by assumption.
    apply Ok_inj in Henc. subst bs. simpl. lia.
  - rewrite utf8_encode_char_4 in Henc by exact H4.
    apply Ok_inj in Henc. subst bs. simpl. lia.
Qed.

Lemma encode_utf8_length s bs :
  Py.encode_utf8 s = Ok bs -> (length s <= length bs <= 4 * length s)%nat.
Proof.
  revert bs. induction s as [| ch s IH]; intros bs Henc; simpl in Henc.
  - apply Ok_inj in Henc. subst bs. simpl. lia.
  - apply bind_Ok_inv in Henc. destruct Henc as (cs & Hch & Henc).
    apply bind_Ok_inv in Henc. destruct Henc as (rest & Hrest & Henc).
    apply Ok_inj in Henc. subst bs.
    pose proof (utf8_encode_char_length ch cs Hch).
    pose proof (IH rest Hrest).
    rewrite length_app. simpl length. lia.
Qed.

(** A well-formed prefix is read in full, whatever follows it. *)
Lemma decode_utf8_app_encoded e s bs r :
  Py.encode_utf8 s = Ok bs ->
  Py.decode_utf8 e (bs ++ r) = (x <- Py.decode_utf8 e r ;; Ok (s ++ x)).
Proof.
  revert bs. induction s as [| ch s IH]; intros bs Henc; simpl in Henc.
  - apply Ok_inj in Henc. subst bs. simpl.
    destruct (Py.decode_utf8 e r); reflexivity.
  - apply bind_Ok_inv in Henc. destruct Henc as (cs & Hch & Henc).
    apply bind_Ok_inv in Henc. destruct Henc as (rest & Hrest & Henc).
    apply Ok_inj in Henc. subst bs.
    rewrite <- app_assoc.
    rewrite (decode_utf8_encode_char e ch cs (rest ++ r) Hch).
    rewrite (IH rest Hrest).
    destruct (Py.decode_utf8 e r); reflexivity.
Qed.

(** ** The byte vocabulary, scalar side *)

Lemma before_first_length eos ids :
  (length (Spec.before_first eos ids) <= length ids)%nat.
Proof.
  induction ids as [| i ids IH]; simpl; [lia |].
  destruct (i =? eos); simpl; lia.
Qed.

Lemma before_first_app_absent eos pre post :
  ~ In eos pre ->
  Spec.before_first eos (pre ++ post) = pre ++ Spec.before_first eos post.
Proof.
  induction pre as [| i pre IH]; intros Hnot; simpl; [reflexivity |].
  destruct (Z.eqb_spec i eos) as [-> | Hne].
  - exfalso. apply Hnot. left. reflexivity.
  - rewrite IH; [reflexivity |]. intros Hin. apply Hnot. right. exact Hin.
Qed.

Lemma content_bytes ids :
  Forall (fun b => 0 <= b < 256)
         (map (fun i => i - 3) (filter Spec.is_content_id ids)).
Proof.
  apply Forall_forall. intros b Hin.
  apply in_map_iff in Hin. destruct Hin as (i & <- & Hin).
  apply filter_In in Hin. destruct Hin as [_ Hc].
  apply is_content_id_spec in Hc. lia.
Qed.

(** X1.  Encoding distributes over concatenation: the ids of [s1 + s2] are
    the ids of [s1] followed by those of [s2], and the call raises when
    either part does. *)
Theorem byte_encode_concat (k : Z) (s1 s2 : Py.str) :
  let self := ByteVocabulary.__init__ k in
  encode self (s1 ++ s2)
  = (a <- encode self s1 ;; b <- encode self s2 ;; Ok (a ++ b)).
Proof.
  intros self. unfold self. rewrite !byte_encode_ids. unfold Spec.byte_ids.
  rewrite encode_utf8_app.
  destruct (Py.encode_utf8 s1) as [a | ex]; simpl; [| reflexivity].
  destruct (Py.encode_utf8 s2) as [b | ex]; simpl; [| reflexivity].
  rewrite map_app. reflexivity.
Qed.

(** X2.  Encoding is injective: two strings with the same ids are the same
    string. *)
Theorem byte_encode_injective (k : Z) (s1 s2 : Py.str) (ids : list Z) :
  encode (ByteVocabulary.__init__ k) s1 = Ok ids ->
  encode (ByteVocabulary.__init__ k) s2 = Ok ids ->
  s1 = s2.
Proof.
  rewrite !byte_encode_ids. intros H1 H2.
  apply byte_text_byte_ids in H1. apply byte_text_byte_ids in H2.
  rewrite H1 in H2. apply Ok_inj in H2. exact H2.
Qed.

Lemma byte_encode_injective_witness :
  encode (ByteVocabulary.__init__ 0) [0x68; 0xE9] = Ok [107; 198; 172]
  /\ [0x68; 0xE9] = [0x68; 0xE9].
Proof.
  split; [reflexivity |].
  exact (byte_encode_injective 0 [0x68; 0xE9] [0x68; 0xE9] [107; 198; 172]
           eq_refl eq_refl).
Defined.

(** X3.  An encoded string has between one and four ids per character. *)
Theorem byte_encode_length (k : Z) (s : Py.str) (ids : list Z) :
  encode (ByteVocabulary.__init__ k) s = Ok ids ->
  (length s <= length ids <= 4 * length s)%nat.
Proof.
  rewrite byte_encode_ids. intros Hids.
  destruct (byte_ids_content s ids Hids) as (bs & Hbs & -> & _).
  rewrite length_map. apply encode_utf8_length. exact Hbs.
Qed.

Lemma byte_encode_length_witness :
  encode (ByteVocabulary.__init__ 0) [0x68; 0xE9] = Ok [107; 198; 172]
  /\ (length [0x68; 0xE9] <= length [107; 198; 172]
      <= 4 * length [0x68; 0xE9])%nat.
Proof.
  split; [reflexivity |].
  exact (byte_encode_length 0 [0x68; 0xE9] [107; 198; 172] eq_refl).
Defined.

(** X4.  With a non-negative number of extra ids, every id that [encode]
    emits is a valid index of the vocabulary; it is in 3..247, since UTF-8
    has no byte above 0xF4, so ids 248..258 and the extra ids are never
    emitted. *)
Theorem byte_encode_ids_in_vocabulary (k : Z) (s : Py.str) (ids : list Z) :
  0 <= k ->
  encode (ByteVocabulary.__init__ k) s = Ok ids ->
  Forall (fun i => 3 <= i <= 247
                   /\ 0 <= i < vocab_size (ByteVocabulary.__init__ k)) ids.
Proof.
  intros Hk. rewrite byte_encode_ids. intros Hids.
  destruct (byte_ids_content s ids Hids) as (_ & _ & _ & Hall).
  eapply Forall_impl; [| exact Hall].
  intros i Hi. simpl in Hi.
  replace (vocab_size (ByteVocabulary.__init__ k)) with (259 + k)
    by reflexivity.
  lia.
Qed.

Lemma byte_encode_ids_in_vocabulary_witness :
  0 <= 100
  /\ encode (ByteVocabulary.__init__ 100) [0x68; 0xE9] = Ok [107; 198; 172]
  /\ Forall (fun i => 3 <= i <= 247
                      /\ 0 <= i < vocab_size (ByteVocabulary.__init__ 100))
            [107; 198; 172].
Proof.
  assert (Hk : 0 <= 100) by lia.
  split; [exact Hk |]. split; [reflexivity |].
  exact (byte_encode_ids_in_vocabulary 100 [0x68; 0xE9] [107; 198; 172]
           Hk eq_refl).
Defined.

(** X5.  Whatever ids it is given, [decode] returns a string of Unicode
    scalar values (never a surrogate or a value beyond U+10FFFF), with at
    most one character per id. *)
Theorem byte_decode_scalar_values (k : Z) (ids : list Z) :
  exists s,
    decode (ByteVocabulary.__init__ k) ids = Ok s
    /\ Forall (fun ch => Py.is_scalar_value ch = true) s
    /\ (length s <= length ids)%nat.
Proof.
  rewrite byte_decode_text. unfold Spec.byte_text.
  destruct (decode_utf8_ignore_total
              (map (fun i => i - 3)
                   (filter Spec.is_content_id (Spec.before_first EOS_ID ids))))
    as [s Hs].
  exists s. split; [exact Hs |].
  destruct (decode_utf8_output _ _ _ (content_bytes _) Hs) as [Hsc Hlen].
  split; [exact Hsc |].
  rewrite length_map in Hlen.
  pose proof (filter_length_le Spec.is_content_id
                (Spec.before_first EOS_ID ids)).
  pose proof (before_first_length EOS_ID ids). lia.
Qed.

(** X6.  Decoding is stable under a further round trip: the string that
    [decode] returns can always be encoded, and decoding those ids gives the
    same string. *)
Theorem byte_decode_encode_decode (k : Z) (ids : list Z) :
  exists s ids',
    decode (ByteVocabulary.__init__ k) ids = Ok s
    /\ encode (ByteVocabulary.__init__ k) s = Ok ids'
    /\ decode (ByteVocabulary.__init__ k) ids' = Ok s.
Proof.
  rewrite byte_decode_text. unfold Spec.byte_text.
  destruct (decode_utf8_ignore_total
              (map (fun i => i - 3)
                   (filter Spec.is_content_id (Spec.before_first EOS_ID ids))))
    as [s Hs].
  destruct (decode_utf8_output _ _ _ (content_bytes _) Hs) as [Hsc _].
  destruct (byte_ids_scalar s Hsc) as [ids' Hids'].
  exists s, ids'. split; [exact Hs |].
  rewrite byte_encode_ids, byte_decode_text.
  split; [exact Hids' | apply byte_text_byte_ids; exact Hids'].
Qed.

Lemma before_first_filter_keep eos (keep : Z -> bool) ids :
  keep eos = true ->
  Spec.before_first eos (filter keep ids)
  = filter keep (Spec.before_first eos ids).
Proof.
  intros Hkeep. induction ids as [| i ids IH]; simpl; [reflexivity |].
  destruct (Z.eqb_spec i eos) as [-> | Hne].
  - rewrite Hkeep. simpl. rewrite Z.eqb_refl. reflexivity.
  - destruct (keep i) eqn:Hi; simpl.
    + destruct (Z.eqb_spec i eos); [contradiction |].
      rewrite IH, Hi. reflexivity.
    + rewrite Hi. exact IH.
Qed.

Lemma filter_filter_weaker (p q : Z -> bool) ids :
  (forall i, p i = true -> q i = true) ->
  filter p (filter q ids) = filter p ids.
Proof.
  intros Hpq. induction ids as [| i ids IH]; simpl; [reflexivity |].
  destruct (q i) eqn:Hq; simpl.
  - rewrite IH. reflexivity.
  - destruct (p i) eqn:Hp; [| exact IH].
    apply Hpq in Hp. congruence.
Qed.

Lemma byte_text_keep ids :
  Spec.byte_text
    (filter (fun i => Spec.is_content_id i || (i =? EOS_ID)) ids)
  = Spec.byte_text ids.
Proof.
  unfold Spec.byte_text.
  rewrite before_first_filter_keep
    by (rewrite Z.eqb_refl; apply orb_true_r).
  rewrite filter_filter_weaker; [reflexivity |].
  intros i Hi. rewrite Hi. reflexivity.
Qed.

Lemma filter_keep_pad n :
  filter (fun i => Spec.is_content_id i || (i =? EOS_ID)) (repeat PAD_ID n)
  = [].
Proof. induction n as [| n IH]; simpl; [reflexivity | exact IH]. Qed.

(** X7.  Only content ids and the terminator matter to [decode]: dropping
    every other id (pad, unknown, extra, negative or too large) from the
    sequence leaves the result unchanged, and so does padding the sequence
    with any number of pad ids. *)
Theorem byte_decode_ignores_other_ids (k : Z) (ids : list Z) :
  let self := ByteVocabulary.__init__ k in
  decode self (filter (fun i => Spec.is_content_id i || (i =? EOS_ID)) ids)
  = decode self ids
  /\ (forall n, decode self (ids ++ repeat PAD_ID n) = decode self ids).
Proof.
  intros self. unfold self. rewrite !byte_decode_text.
  split; [apply byte_text_keep |].
  intros n. rewrite byte_decode_text.
  rewrite <- (byte_text_keep (ids ++ repeat PAD_ID n)).
  rewrite filter_app, filter_keep_pad, app_nil_r.
  apply byte_text_keep.
Qed.

(** X8.  On a sequence without terminator, [decode] is the primitive
    decoder [_decode]: substitution of the unknown id changes nothing that
    the range filter keeps. *)
Theorem byte_decode_is_primitive_without_eos (k : Z) (ids : list Z) :
  ~ In EOS_ID ids ->
  decode (ByteVocabulary.__init__ k) ids
  = ByteVocabulary._decode (ByteVocabulary.__init__ k) ids.
Proof.
  intros Hnot. rewrite byte_decode_text, primitive_decode_content.
  unfold Spec.byte_text. rewrite before_first_absent by exact Hnot.
  reflexivity.
Qed.

Lemma byte_decode_is_primitive_without_eos_witness :
  ~ In EOS_ID [107; 300; 0; 198; 172]
  /\ decode (ByteVocabulary.__init__ 0) [107; 300; 0; 198; 172]
     = ByteVocabulary._decode (ByteVocabulary.__init__ 0)
         [107; 300; 0; 198; 172].
Proof.
  assert (Hnot : ~ In EOS_ID [107; 300; 0; 198; 172]).
  { unfold EOS_ID. simpl.
    intros [Hx | [Hx | [Hx | [Hx | [Hx | []]]]]]; discriminate. }
  split; [exact Hnot |].
  exact (byte_decode_is_primitive_without_eos 0 _ Hnot).
Defined.

(** X9.  Encoded text is decoded intact whatever follows it: decoding the
    ids of [s] followed by more ids gives [s] followed by the decoding of
    those; in particular the ids of [s], a terminator and anything after it
    decode to [s]. *)
Theorem byte_decode_encoded_prefix
    (k : Z) (s : Py.str) (ids rest : list Z) :
  encode (ByteVocabulary.__init__ k) s = Ok ids ->
  decode (ByteVocabulary.__init__ k) (ids ++ rest)
  = (r <- decode (ByteVocabulary.__init__ k) rest ;; Ok (s ++ r))
  /\ decode (ByteVocabulary.__init__ k) (ids ++ EOS_ID :: rest) = Ok s.
Proof.
  rewrite byte_encode_ids. intros Hids.
  destruct (byte_ids_content s ids Hids) as (bs & Hbs & -> & Hall).
  apply narrow_content in Hall.
  assert (Hprefix : forall more,
    Spec.byte_text (map (fun b => b + 3) bs ++ more)
    = (r <- Spec.byte_text more ;; Ok (s ++ r))).
  { intros more. unfold Spec.byte_text.
    rewrite before_first_app_absent by (apply content_no_eos; exact Hall).
    rewrite filter_app, filter_all_content by exact Hall.
    rewrite map_app, shift_down_up.
    apply decode_utf8_app_encoded. exact Hbs. }
  rewrite !byte_decode_text. split; [apply Hprefix |].
  rewrite Hprefix. unfold Spec.byte_text. simpl.
  rewrite app_nil_r. reflexivity.
Qed.

Lemma byte_decode_encoded_prefix_witness :
  encode (ByteVocabulary.__init__ 0) [0x68; 0xE9] = Ok [107; 198; 172]
  /\ decode (ByteVocabulary.__init__ 0) ([107; 198; 172] ++ EOS_ID :: [0; 0])
     = Ok [0x68; 0xE9].
Proof.
  split; [reflexivity |].
  exact (proj2 (byte_decode_encoded_prefix 0 [0x68; 0xE9] [107; 198; 172]
                  [0; 0] eq_refl)).
Defined.

Lemma bytes_out_of_range ids :
  ~ Forall (fun i => 0 <= i < 256) ids -> Py.bytes ids = Raise ValueError.
Proof.
  intros Hnot. unfold Py.bytes.
  destruct (forallb (fun i => (0 <=? i) && (i <? 256)) ids) eqn:Hall;
    [| reflexivity].
  exfalso. apply Hnot. apply Forall_forall. intros i Hin.
  rewrite forallb_forall in Hall. specialize (Hall i Hin).
  apply andb_true_iff in Hall. destruct Hall as [Hlo Hhi].
  apply Z.leb_le in Hlo. apply Z.ltb_lt in Hhi. lia.
Qed.

(** X10.  [_convert_ids_to_strings] returns exactly on sequences of byte
    values: with every id in 0..255 it returns a string of scalar values,
    and with any id outside it raises [ValueError]. *)
Theorem convert_ids_to_strings_range (self : ByteVocabulary.t) (ids : list Z) :
  (Forall (fun i => 0 <= i < 256) ids ->
   exists s,
     ByteVocabulary._convert_ids_to_strings self ids = Ok s
     /\ Forall (fun ch => Py.is_scalar_value ch = true) s)
  /\ (~ Forall (fun i => 0 <= i < 256) ids ->
      ByteVocabulary._convert_ids_to_strings self ids = Raise ValueError).
Proof.
  unfold ByteVocabulary._convert_ids_to_strings. split.
  - intros Hall. rewrite bytes_in_range by exact Hall. simpl.
    destruct (decode_utf8_ignore_total ids) as [s Hs].
    exists s. split; [exact Hs |].
    exact (proj1 (decode_utf8_output _ _ _ Hall Hs)).
  - intros Hnot. rewrite bytes_out_of_range by exact Hnot. reflexivity.
Qed.

(** X11.  The lossy decoding loses nothing on well-formed input: when the
    ids are byte values that strict UTF-8 decoding reads as [s],
    [_convert_ids_to_strings] returns [s]. *)
Theorem convert_ids_to_strings_well_formed
    (self : ByteVocabulary.t) (ids : list Z) (s : Py.str) :
  Forall (fun i => 0 <= i < 256) ids ->
  Py.decode_utf8 Py.strict ids = Ok s ->
  ByteVocabulary._convert_ids_to_strings self ids = Ok s.
Proof.
  intros Hall Hstrict. unfold ByteVocabulary._convert_ids_to_strings.
  rewrite bytes_in_range by exact Hall. simpl.
  apply decode_utf8_strict_ignore. exact Hstrict.
Qed.

Lemma convert_ids_to_strings_well_formed_witness :
  Forall (fun i => 0 <= i < 256) [0x68; 0xC3; 0xA9]
  /\ Py.decode_utf8 Py.strict [0x68; 0xC3; 0xA9] = Ok [0x68; 0xE9]
  /\ ByteVocabulary._convert_ids_to_strings (ByteVocabulary.__init__ 0)
       [0x68; 0xC3; 0xA9] = Ok [0x68; 0xE9].
Proof.
  assert (Hall : Forall (fun i => 0 <= i < 256) [0x68; 0xC3; 0xA9])
    by (repeat constructor; lia).
  split; [exact Hall |]. split; [reflexivity |].
  exact (convert_ids_to_strings_well_formed (ByteVocabulary.__init__ 0)
           [0x68; 0xC3; 0xA9] [0x68; 0xE9] Hall eq_refl).
Defined.

(** ** The byte vocabulary, tensor side *)

Lemma byte_text_cleaned ids :
  Spec.byte_text (Spec.before_first EOS_ID (Spec.substitute_unk 259 UNK_ID ids))
  = Spec.byte_text ids.
Proof.
  unfold Spec.byte_text.
  rewrite (before_first_absent EOS_ID (Spec.before_first EOS_ID _))
    by apply before_first_no_eos.
  rewrite content_before_first_substitute. reflexivity.
Qed.

(** [decode_tf] on a tensor that is not empty: the scalar [decode], its
    result written as UTF-8. *)
Lemma byte_decode_tf_nonempty k ids :
  ids <> [] ->
  decode_tf (ByteVocabulary.__init__ k) ids
  = (s <- decode (ByteVocabulary.__init__ k) ids ;; Py.encode_utf8 s).
Proof.
  intros Hne. rewrite decode_tf_clean by exact Hne.
  rewrite byte_vocabulary_clean.
  change (_decode_tf (ByteVocabulary.__init__ k)
            (Spec.before_first EOS_ID (Spec.substitute_unk 259 UNK_ID ids)))
    with (tf.py_function_string (decode (ByteVocabulary.__init__ k))
            (Spec.before_first EOS_ID (Spec.substitute_unk 259 UNK_ID ids))).
  unfold tf.py_function_string.
  rewrite !byte_decode_text, byte_text_cleaned. unfold Spec.byte_text.
  destruct (decode_utf8_ignore_total
              (map (fun i => i - 3)
                   (filter Spec.is_content_id (Spec.before_first EOS_ID ids))))
    as [s Hs].
  destruct (decode_utf8_output _ _ _ (content_bytes _) Hs) as [Hsc _].
  destruct (encode_utf8_scalar s Hsc) as [out Hout].
  rewrite Hs. cbn [bind]. rewrite Hout. reflexivity.
Qed.

(** X12.  On a non-empty tensor the batched decoder agrees with the scalar
    one: [decode_tf] returns, its result is the UTF-8 form of what [decode]
    returns on the same ids, and reading the string scalar back gives that
    string. *)
Theorem byte_decode_tf_matches_decode (k : Z) (ids : list Z) :
  ids <> [] ->
  exists s out,
    decode (ByteVocabulary.__init__ k) ids = Ok s
    /\ decode_tf (ByteVocabulary.__init__ k) ids = Ok out
    /\ Py.encode_utf8 s = Ok out
    /\ tf.numpy_decode out = Ok s.
Proof.
  intros Hne. rewrite (byte_decode_tf_nonempty k ids Hne).
  rewrite byte_decode_text. unfold Spec.byte_text.
  destruct (decode_utf8_ignore_total
              (map (fun i => i - 3)
                   (filter Spec.is_content_id (Spec.before_first EOS_ID ids))))
    as [s Hs].
  destruct (decode_utf8_output _ _ _ (content_bytes _) Hs) as [Hsc _].
  destruct (encode_utf8_scalar s Hsc) as [out Hout].
  exists s, out. rewrite Hs. simpl.
  repeat split; try assumption.
  unfold tf.numpy_decode. apply decode_utf8_encode_utf8. exact Hout.
Qed.

Lemma byte_decode_tf_matches_decode_witness :
  [107; 198; 172; 1; 107] <> []
  /\ exists s out,
       decode (ByteVocabulary.__init__ 0) [107; 198; 172; 1; 107] = Ok s
       /\ decode_tf (ByteVocabulary.__init__ 0) [107; 198; 172; 1; 107] = Ok out
       /\ Py.encode_utf8 s = Ok out
       /\ tf.numpy_decode out = Ok s.
Proof.
  assert (Hne : [107; 198; 172; 1; 107] <> []) by discriminate.
  split; [exact Hne |].
  exact (byte_decode_tf_matches_decode 0 [107; 198; 172; 1; 107] Hne).
Defined.

(** X13.  [decode_tf] raises on the empty tensor and on no other. *)
Theorem byte_decode_tf_raises_iff_empty (k : Z) (ids : list Z) :
  (exists ex, decode_tf (ByteVocabulary.__init__ k) ids = Raise ex)
  <-> ids = [].
Proof.
  split.
  - intros [ex Hraise]. destruct ids as [| i ids]; [reflexivity |].
    exfalso.
    assert (Hne : i :: ids <> []) by discriminate.
    rewrite (byte_decode_tf_nonempty k (i :: ids) Hne) in Hraise.
    rewrite byte_decode_text in Hraise. unfold Spec.byte_text in Hraise.
    destruct (decode_utf8_ignore_total
                (map (fun i => i - 3)
                     (filter Spec.is_content_id
                             (Spec.before_first EOS_ID (i :: ids)))))
      as [s Hs].
    destruct (decode_utf8_output _ _ _ (content_bytes _) Hs) as [Hsc _].
    destruct (encode_utf8_scalar s Hsc) as [out Hout].
    rewrite Hs in Hraise. simpl in Hraise. congruence.
  - intros ->. exists InvalidArgumentError. reflexivity.
Qed.

(** X14.  The batched encoder agrees with the scalar one wherever the
    scalar one returns: when [encode] gives ids for a string, [encode_tf] of
    its string scalar gives the same ids, and the other way round.  When
    [encode] raises, for a lone surrogate, the batched side raises too, but
    a [ValueError] of [tf.constant], before [encode_tf] is reached. *)
Theorem byte_encode_tf_matches_encode (k : Z) (s : Py.str) :
  let self := ByteVocabulary.__init__ k in
  (forall ids,
     encode self s = Ok ids
     <-> (t <- tf.constant_str s ;; encode_tf self t) = Ok ids)
  /\ (forall ex,
      encode self s = Raise ex ->
      tf.constant_str s = Raise ValueError
      /\ (t <- tf.constant_str s ;; encode_tf self t) = Raise ValueError).
Proof.
  intros self. unfold self. rewrite byte_encode_ids.
  unfold Spec.byte_ids, tf.constant_str.
  destruct (Py.encode_utf8 s) as [bs | ex0] eqn:Hbs; cbn [bind].
  - cbn [encode_tf _encode_tf ByteVocabulary_Vocabulary].
    unfold ByteVocabulary._encode_tf, tf.decode_raw_uint8, tf.cast_int32.
    cbn [ByteVocabulary.__init__ ByteVocabulary._num_special_tokens].
    rewrite (add_uint8_small bs (encode_utf8_bytes s bs Hbs)).
    split; [intros ids; tauto | intros ex Hex; discriminate Hex].
  - split.
    + intros ids. split; intros Hok; discriminate Hok.
    + intros ex _. split; reflexivity.
Qed.

(** X15.  On an arbitrary string scalar [encode_tf] adds 3 in [uint8]: a
    byte up to 0xFC becomes the id [b + 3], and the bytes 0xFD, 0xFE and
    0xFF wrap to the ids 0, 1 and 2 of pad, terminator and unknown. *)
Theorem byte_encode_tf_wraps (k : Z) (t : list Z) :
  Forall (fun b => 0 <= b < 256) t ->
  encode_tf (ByteVocabulary.__init__ k) t
  = Ok (map (fun b => if b <? 253 then b + 3 else b - 253) t).
Proof.
  intros Hall. cbn [encode_tf _encode_tf ByteVocabulary_Vocabulary].
  unfold ByteVocabulary._encode_tf, tf.decode_raw_uint8, tf.cast_int32,
    tf.add_uint8.
  cbn [ByteVocabulary.__init__ ByteVocabulary._num_special_tokens].
  f_equal. apply map_ext_in. intros b Hin.
  rewrite Forall_forall in Hall. specialize (Hall b Hin).
  destruct (Z.ltb_spec b 253); euclid.
Qed.

Lemma byte_encode_tf_wraps_witness :
  Forall (fun b => 0 <= b < 256) [0x41; 0xFC; 0xFD; 0xFE; 0xFF]
  /\ encode_tf (ByteVocabulary.__init__ 0) [0x41; 0xFC; 0xFD; 0xFE; 0xFF]
     = Ok [68; 255; 0; 1; 2].
Proof.
  assert (Hall : Forall (fun b => 0 <= b < 256) [0x41; 0xFC; 0xFD; 0xFE; 0xFF])
    by (repeat constructor; lia).
  split; [exact Hall |].
  exact (byte_encode_tf_wraps 0 [0x41; 0xFC; 0xFD; 0xFE; 0xFF] Hall).
Defined.

(** ** Any vocabulary *)

Lemma substitute_below_base base unk ids :
  unk < base -> Forall (fun i => i < base) (Spec.substitute_unk base unk ids).
Proof.
  intros Hunk. unfold Spec.substitute_unk. apply Forall_forall.
  intros j Hin. apply in_map_iff in Hin. destruct Hin as (i & <- & _).
  destruct (Z.leb_spec base i); lia.
Qed.

(** X16.  With terminator and unknown id in use and the unknown id below
    the base vocabulary size, the primitive decoders only ever see cleaned
    sequences: [decode] and, on a non-empty tensor, [decode_tf] pass the
    same sequence, which has no terminator, no id at or above the base
    size, and is no longer than the input. *)
Theorem primitive_decoders_get_cleaned_ids
    {V : Type} `{Vocabulary V} (self : V) (ids : list Z) :
  _use_eos self = true ->
  _use_unk self = true ->
  UNK_ID < _base_vocab_size self ->
  let cleaned :=
    Spec.clean (unk_id self) (eos_id self) (_base_vocab_size self) ids in
  decode self ids = _decode self cleaned
  /\ (ids <> [] -> decode_tf self ids = _decode_tf self cleaned)
  /\ ~ In EOS_ID cleaned
  /\ Forall (fun i => i < _base_vocab_size self) cleaned
  /\ (length cleaned <= length ids)%nat.
Proof.
  intros Heos Hunk Hbase cleaned.
  split; [apply decode_clean |].
  split; [apply decode_tf_clean |].
  unfold cleaned, Spec.clean, unk_id, eos_id. rewrite Heos, Hunk.
  split; [apply before_first_no_eos |]. split.
  - apply before_first_Forall. apply substitute_below_base. exact Hbase.
  - pose proof (before_first_length EOS_ID
                  (Spec.substitute_unk (_base_vocab_size self) UNK_ID ids)).
    rewrite substitute_length in *. assumption.
Qed.

Lemma primitive_decoders_get_cleaned_ids_witness :
  let self := ByteVocabulary.__init__ 0 in
  decode self [107; 300; 1; 5] = _decode self [107; 2]
  /\ ([107; 300; 1; 5] <> [] ->
      decode_tf self [107; 300; 1; 5] = _decode_tf self [107; 2])
  /\ ~ In EOS_ID [107; 2]
  /\ Forall (fun i => i < _base_vocab_size self) [107; 2]
  /\ (length [107; 2] <= length [107; 300; 1; 5])%nat.
Proof.
  exact (primitive_decoders_get_cleaned_ids
           (ByteVocabulary.__init__ 0) [107; 300; 1; 5]
           eq_refl eq_refl eq_refl).
Defined.

(** X17.  The empty sequence: [decode] passes it to the primitive decoder,
    while [decode_tf] raises on the empty tensor exactly when the
    terminator is in use and otherwise passes it on as well. *)
Theorem decode_empty_sequence {V : Type} `{Vocabulary V} (self : V) :
  decode self [] = _decode self []
  /\ decode_tf self []
     = if _use_eos self then Raise InvalidArgumentError
       else _decode_tf self [].
Proof.
  split.
  - rewrite decode_clean. unfold Spec.clean.
    destruct (unk_id self); destruct (eos_id self); reflexivity.
  - unfold decode_tf, eos_id, unk_id.
    destruct (_use_unk self); destruct (_use_eos self); reflexivity.
Qed.

(** ** Equality of byte vocabularies *)

(** X18.  [__eq__] is an equivalence on byte vocabularies: reflexive,
    symmetric and transitive. *)
Theorem byte_eq_equivalence :
  (forall a, ByteVocabulary.__eq__ a a = true)
  /\ (forall a b, ByteVocabulary.__eq__ a b = ByteVocabulary.__eq__ b a)
  /\ (forall a b c,
      ByteVocabulary.__eq__ a b = true ->
      ByteVocabulary.__eq__ b c = true ->
      ByteVocabulary.__eq__ a c = true).
Proof.
  unfold ByteVocabulary.__eq__. split; [| split].
  - intros a. apply Z.eqb_refl.
  - intros a b. apply Z.eqb_sym.
  - intros a b c Hab Hbc. apply Z.eqb_eq in Hab, Hbc. apply Z.eqb_eq.
    congruence.
Qed.

(** X19.  For vocabularies built by the constructor, [__eq__] is equality
    of the objects: two of them compare equal exactly when they have the
    same attributes, hence encode and decode alike. *)
Theorem byte_eq_constructed (k k' : Z) :
  ByteVocabulary.__eq__ (ByteVocabulary.__init__ k) (ByteVocabulary.__init__ k')
  = true
  <-> ByteVocabulary.__init__ k = ByteVocabulary.__init__ k'.
Proof.
  unfold ByteVocabulary.__eq__. cbn [ByteVocabulary.__init__
    ByteVocabulary.extra_ids_]. rewrite Z.eqb_eq. split.
  - intros ->. reflexivity.
  - intros Heq. exact (f_equal ByteVocabulary.extra_ids_ Heq).
Qed.

(** ** The default vocabulary path *)

(** X20.  [get_default_spm_path] returns a non-empty path it is given and
    the default path otherwise, for [None] as for the empty string; the
    result is never empty, and passing it back returns it unchanged. *)
Theorem get_default_spm_path_never_empty (path : option string) :
  get_default_spm_path path <> EmptyString
  /\ (forall p, p <> EmptyString -> get_default_spm_path (Some p) = p)
  /\ get_default_spm_path None = DEFAULT_SPM_PATH
  /\ get_default_spm_path (Some EmptyString) = DEFAULT_SPM_PATH
  /\ get_default_spm_path (Some (get_default_spm_path path))
     = get_default_spm_path path.
Proof.
  split; [| split; [| split; [| split]]].
  - destruct path as [[| c p] |]; simpl; discriminate.
  - intros [| c p] Hp; [contradiction | reflexivity].
  - reflexivity.
  - reflexivity.
  - destruct path as [[| c p] |]; reflexivity.
Qed.

(** ** Strings that cannot be encoded *)

Lemma encode_utf8_surrogate s :
  Forall (fun ch => 0 <= ch < 0x110000) s ->
  ~ Forall (fun ch => Py.is_scalar_value ch = true) s ->
  Py.encode_utf8 s = Raise UnicodeEncodeError.
Proof.
  induction 1 as [| ch s Hch _ IH]; intros Hnot.
  - exfalso. apply Hnot. constructor.
  - simpl. destruct (Py.is_scalar_value ch) eqn:Hs.
    + destruct (scalar_utf8_encode_char ch Hs) as [cs ->]. simpl.
      rewrite IH; [reflexivity |].
      intros Hall. apply Hnot. constructor; assumption.
    + assert (Hsur : 0xD800 <= ch <= 0xDFFF).
      { destruct (Z.le_gt_cases 0xD800 ch) as [Hlo | Hlo];
          destruct (Z.le_gt_cases ch 0xDFFF) as [Hhi | Hhi]; try lia;
          assert (Hyes : Py.is_scalar_value ch = true)
            by (apply is_scalar_value_spec; lia);
          congruence. }
      rewrite utf8_encode_char_surrogate by exact Hsur. reflexivity.
Qed.

(** X21.  [encode] fails exactly on lone surrogates: on a string of code
    points it returns ids when no character is in U+D800..U+DFFF, and raises
    [UnicodeEncodeError] when one is. *)
Theorem byte_encode_raises_on_surrogates (k : Z) (s : Py.str) :
  Forall (fun ch => 0 <= ch < 0x110000) s ->
  (Forall (fun ch => Py.is_scalar_value ch = true) s ->
   exists ids, encode (ByteVocabulary.__init__ k) s = Ok ids)
  /\ (~ Forall (fun ch => Py.is_scalar_value ch = true) s ->
      encode (ByteVocabulary.__init__ k) s = Raise UnicodeEncodeError).
Proof.
  intros Hrange. rewrite byte_encode_ids. split.
  - apply byte_ids_scalar.
  - intros Hnot. unfold Spec.byte_ids.
    rewrite (encode_utf8_surrogate s Hrange Hnot). reflexivity.
Qed.

Lemma byte_encode_raises_on_surrogates_witness :
  Forall (fun ch => 0 <= ch < 0x110000) [0x68; 0xD800]
  /\ ~ Forall (fun ch => Py.is_scalar_value ch = true) [0x68; 0xD800]
  /\ encode (ByteVocabulary.__init__ 0) [0x68; 0xD800]
     = Raise UnicodeEncodeError.
Proof.
  assert (Hrange : Forall (fun ch => 0 <= ch < 0x110000) [0x68; 0xD800])
    by (repeat constructor; lia).
  assert (Hnot : ~ Forall (fun ch => Py.is_scalar_value ch = true)
                     [0x68; 0xD800]).
  { intros Hall. inversion Hall as [| ? ? _ Hrest]; subst.
    inversion Hrest as [| ? ? Hsur _]; subst. discriminate Hsur. }
  split; [exact Hrange |]. split; [exact Hnot |].
  exact (proj2 (byte_encode_raises_on_surrogates 0 [0x68; 0xD800] Hrange) Hnot).
Defined.
